(** * Record-pool allocation and import engine of [bot.py]

    A shallow embedding of the CSV pool store, the quota ledger, the
    allocation routine ([allocate_for_user], [_assign_records_csv]), the
    de-duplicating importer ([_add_new_values]), the manager unlock
    ([on_clear_command]) and the statistics pass ([on_stats]), followed by
    the properties established about them.

    Conventions of the embedding:
    - a Python [str] is a [string] of 8-bit characters; the character
      classes used by [str.strip], [str.lower] and [int] are the ASCII
      ones (characters above 127 are neither blank nor cased nor digits);
    - a CSV file is the list of rows [csv.reader] yields from it, a row is
      a list of strings; [rows[0]] is the header line, [rows[1:]] are the
      records;
    - the file system is a finite map from paths to file contents, a path
      without entry is a file for which [os.path.exists] is false;
    - Python integers are [Z];
    - functions that read or write files take the world and return the
      world they leave; a call runs from start to end without another call
      in between, which is what [csv_lock] gives the mutating calls;
    - the transport (messages, keyboards, the look-up of the identity a
      support topic belongs to) is outside the embedding. *)

From Stdlib Require Import ZArith String Ascii List Bool Lia.
From Stdlib Require Import DecimalString DecimalZ DecimalPos.
From stdpp Require Import gmap strings list fin_maps.

Local Set Warnings "-clear-no-such-hyp".
Local Open Scope string_scope.
Local Open Scope list_scope.
Local Open Scope Z_scope.

(** ** Python string primitives *)

Module PyStr.

(** [str.isspace] on one ASCII character: TAB..CR, FS..US and SPACE. *)
Definition is_space (c : ascii) : bool :=
  let n := nat_of_ascii c in
  ((9 <=? n)%nat && (n <=? 13)%nat) || ((28 <=? n)%nat && (n <=? 32)%nat).

Definition is_digit (c : ascii) : bool :=
  let n := nat_of_ascii c in (48 <=? n)%nat && (n <=? 57)%nat.

Definition is_upper (c : ascii) : bool :=
  let n := nat_of_ascii c in (65 <=? n)%nat && (n <=? 90)%nat.

(** [all(P(c) for c in s)] *)
Fixpoint all_chars (P : ascii -> bool) (s : string) : bool :=
  match s with
  | EmptyString => true
  | String c r => P c && all_chars P r
  end.

Definition truthy (s : string) : bool :=
  match s with EmptyString => false | String _ _ => true end.

Fixpoint lstrip (s : string) : string :=
  match s with
  | EmptyString => EmptyString
  | String c r => if is_space c then lstrip r else s
  end.

Fixpoint rstrip (s : string) : string :=
  match s with
  | EmptyString => EmptyString
  | String c r =>
      let r' := rstrip r in
      if is_space c && negb (truthy r') then EmptyString else String c r'
  end.

(** [s.strip()] *)
Definition strip (s : string) : string := rstrip (lstrip s).

Definition lower_char (c : ascii) : ascii :=
  if is_upper c then ascii_of_nat (nat_of_ascii c + 32) else c.

(** [s.lower()] *)
Fixpoint lower (s : string) : string :=
  match s with
  | EmptyString => EmptyString
  | String c r => String (lower_char c) (lower r)
  end.

(** [if s.startswith("="): s = s[1:]] *)
Definition drop_eq (s : string) : string :=
  match s with
  | String c r => if Ascii.eqb c "=" then r else s
  | EmptyString => s
  end.

(** [str(n)] for an integer [n]. *)
Definition py_str (n : Z) : string := NilZero.string_of_int (Z.to_int n).

(** The digit part of an integer literal accepted by [int]: decimal digits,
    single underscores allowed between two digits.  The result is the
    literal without its underscores; [prev] tells whether the character
    before the current one was a digit. *)
Fixpoint int_digits (prev : bool) (s : string) : option string :=
  match s with
  | EmptyString => if prev then Some EmptyString else None
  | String c r =>
      if is_digit c then option_map (String c) (int_digits true r)
      else if Ascii.eqb c "_" && prev then
        match r with
        | EmptyString => None
        | String _ _ => int_digits false r
        end
      else None
  end.

Definition int_unsigned (s : string) : option Z :=
  match int_digits false s with
  | Some ds =>
      match NilEmpty.uint_of_string ds with
      | Some d => Some (Z.of_uint d)
      | None => None
      end
  | None => None
  end.

(** [int(s)]: [None] stands for [ValueError]. Surrounding blanks are
    dropped, then an optional sign, then the digits. *)
Definition py_int (s : string) : option Z :=
  match strip s with
  | String c r =>
      if Ascii.eqb c "-" then option_map Z.opp (int_unsigned r)
      else if Ascii.eqb c "+" then int_unsigned r
      else int_unsigned (String c r)
  | EmptyString => None
  end.

End PyStr.

Import PyStr.

(** ** Configuration: [BASE_TYPES] *)

Record BaseInfo := mkBase { name : string; csv : string; limit : Z }.

Definition BASE_TYPES : list (string * BaseInfo) :=
  [ ("telegram", mkBase "Telegram" "base_telegram.csv" 50);
    ("whatsapp", mkBase "WhatsApp" "base_whatsapp.csv" 35);
    ("max", mkBase "Max" "base_max.csv" 35);
    ("viber", mkBase "Viber" "base_viber.csv" 35);
    ("instagram", mkBase "Нельзяграм (там где Reels)" "base_instagram.csv" 300);
    ("vk", mkBase "ВКонтакте" "base_vk.csv" 250);
    ("ok", mkBase "Одноклассники" "base_ok.csv" 250);
    ("email", mkBase "Почта" "base_email.csv" 100) ].

(** [BASE_TYPES[key]]; [None] stands for [KeyError]. *)
Fixpoint lookup_base (table : list (string * BaseInfo)) (key : string) : option BaseInfo :=
  match table with
  | [] => None
  | (k, info) :: rest => if String.eqb k key then Some info else lookup_base rest key
  end.

Definition base_info (key : string) : option BaseInfo := lookup_base BASE_TYPES key.

(** ** The stores *)

Abbreviation Row := (list string) (only parsing).

Definition HEADER : Row := ["Value"; "ID"; "Username"; "Date"].

(** [files]: the CSV files of the pools. [limits]: the dictionary
    [load_user_limits] reads from [USER_LIMITS_FILE], which
    [set_user_extra_limit] writes back in full. [writes]: the paths handed
    to [_write_csv] so far, oldest first. *)
Record World := mkWorld {
  files : gmap string (list Row);
  limits : gmap (Z * string) Z;
  writes : list string
}.

Definition empty_world : World := mkWorld ∅ ∅ [].

Definition _read_csv (w : World) (path : string) : list Row :=
  match files w !! path with
  | None => [HEADER]
  | Some rows => rows
  end.

Definition _write_csv (w : World) (path : string) (rows : list Row) : World :=
  mkWorld (<[path := rows]> (files w)) (limits w) (writes w ++ [path]).

(** [row[i]] where the code has checked that the index exists; [""] otherwise. *)
Definition field (i : nat) (row : Row) : string := default "" (row !! i).

(** ** Quota ledger *)

Definition get_user_extra_limit (w : World) (user_id : Z) (base_type : string) : Z :=
  default 0 (limits w !! (user_id, base_type)).

Definition set_user_extra_limit (w : World) (user_id : Z) (base_type : string) (value : Z) : World :=
  mkWorld (files w) (<[(user_id, base_type) := value]> (limits w)) (writes w).

(** ** Counting and claiming *)

(** The test of the loop body of [_count_user_records]:
    [len(row) > 1 and row[1]] and [int(row[1]) == user_id], a [ValueError]
    skipping the row. *)
Definition counts_for (user_id : Z) (row : Row) : bool :=
  match row !! 1%nat with
  | Some id =>
      truthy id &&
      match py_int id with
      | Some n => n =? user_id
      | None => false
      end
  | None => false
  end.

Definition _count_user_records (rows : list Row) (user_id : Z) : Z :=
  fold_left (fun count row => if counts_for user_id row then count + 1 else count)
            (tail rows) 0.

(** [len(r) < 2 or not r[1]] *)
Definition is_free (r : Row) : bool :=
  (List.length r <? 2)%nat || negb (truthy (field 1 r)).

(** [row.extend([""] * (4 - len(row)))] under [if len(row) < 4] *)
Definition pad4 (row : Row) : Row :=
  if (List.length row <? 4)%nat then row ++ replicate (4 - List.length row)%nat "" else row.

(** The value a row hands out: [row[0].strip()] without one leading [=]. *)
Definition handout (row : Row) : string := drop_eq (strip (field 0 row)).

Definition claim (user_id : Z) (username now : string) (row : Row) : Row :=
  <[3%nat := now]> (<[2%nat := username]> (<[1%nat := py_str user_id]> row)).

(** The loop of [_assign_records_csv] over [rows[1:]]; the rows are
    mutated in place in the source, here the mutated rows are returned
    next to [taken]. [username] is a [str], so [username or ""] is
    [username]; [now] is the formatted UTC time. *)
Fixpoint assign_loop (count user_id : Z) (username now : string)
    (rest : list Row) (taken : list string) : list Row * list string :=
  match rest with
  | [] => ([], taken)
  | row :: rest' =>
      if count <=? Z.of_nat (List.length taken) then (rest, taken)
      else
        let row := pad4 row in
        if truthy (field 1 row) then
          let '(out, taken') := assign_loop count user_id username now rest' taken in
          (row :: out, taken')
        else
          let value := handout row in
          if negb (truthy value) then
            let '(out, taken') := assign_loop count user_id username now rest' taken in
            (row :: out, taken')
          else
            let '(out, taken') :=
              assign_loop count user_id username now rest' (taken ++ [value]) in
            (claim user_id username now row :: out, taken')
  end.

Definition _assign_records_csv (rows : list Row) (count user_id : Z)
    (username now : string) : list Row * list string :=
  match rows with
  | [] => ([], [])
  | header :: rest =>
      let '(out, taken) := assign_loop count user_id username now rest [] in
      (header :: out, taken)
  end.

(** ** Allocation *)

Inductive reason := already_got | not_enough.

(** [allocate_for_user]; the result is [None] on [KeyError], otherwise the
    world after the call and the returned pair, whose second component is
    [None] on success. *)
Definition allocate_for_user (w : World) (base_key : string) (user_id : Z)
    (username now : string) : option (World * (list string * option reason)) :=
  match base_info base_key with
  | None => None
  | Some info =>
      let csv_path := csv info in
      let base_limit := limit info in
      let extra_limit := get_user_extra_limit w user_id base_key in
      let total_allowed := base_limit + extra_limit in
      let rows := _read_csv w csv_path in
      let current := _count_user_records rows user_id in
      if total_allowed <=? current then Some (w, ([], Some already_got))
      else
        let can_give := total_allowed - current in
        let free_count := Z.of_nat (List.length (filter (fun r => is_free r = true) rows)) in
        if free_count <? can_give then Some (w, ([], Some not_enough))
        else
          let '(rows', taken) := _assign_records_csv rows can_give user_id username now in
          match taken with
          | [] => Some (w, (taken, None))
          | _ :: _ => Some (_write_csv w csv_path rows', (taken, None))
          end
  end.

(** ** Import *)

(** What [clean_value] distinguishes in its argument: [None], a float with
    [is_integer()] (given by [int(val)]), or anything else (given by
    [str(val)]). *)
Inductive cell :=
  | CNone
  | CFloatInt (n : Z)
  | CStr (s : string).

Definition clean_value (val : cell) : option string :=
  match val with
  | CNone => None
  | CFloatInt n => Some (py_str n)
  | CStr v =>
      let s := drop_eq (strip v) in
      if truthy s then Some s else None
  end.

Definition _get_existing_values (rows : list Row) : gset string :=
  fold_left
    (fun values row =>
       match row with
       | v :: _ => if truthy v then values ∪ {[ lower (strip v) ]} else values
       | [] => values
       end)
    (tail rows) ∅.

(** One turn of the loop of [_add_new_values] on [(rows, existing, added)]. *)
Definition add_step (st : list Row * gset string * Z) (val : cell)
    : list Row * gset string * Z :=
  let '(rows, existing, added) := st in
  match clean_value val with
  | Some val_clean =>
      if bool_decide (lower val_clean ∈ existing) then st
      else (rows ++ [[val_clean; ""; ""; ""]], existing ∪ {[ lower val_clean ]}, added + 1)
  | None => st
  end.

Definition _add_new_values (w : World) (csv_path : string) (new_values : list cell)
    : World * Z :=
  let rows := _read_csv w csv_path in
  let existing := _get_existing_values rows in
  let '(rows', _, added) := fold_left add_step new_values (rows, existing, 0) in
  if 0 <? added then (_write_csv w csv_path rows', added) else (w, added).

(** ** Manager unlock *)

Definition get_user_used_types (w : World) (user_id : Z) : list string :=
  fold_left
    (fun used '(key, info) =>
       if 0 <? _count_user_records (_read_csv w (csv info)) user_id
       then used ++ [key] else used)
    BASE_TYPES [].

(** What [on_clear_command] collects: the keys it unlocked and, for the
    keys it left alone, the allowance that remains. *)
Record ClearReport := mkReport {
  unlocked_keys : list string;
  skipped : list (string * Z)
}.

(** One turn of the loop [for key in used_types] of [on_clear_command]. *)
Definition clear_step (user_id : Z) (st : World * ClearReport) (key : string)
    : World * ClearReport :=
  let '(w, rep) := st in
  match base_info key with
  | None => st
  | Some info =>
      let base_limit := limit info in
      let extra_limit := get_user_extra_limit w user_id key in
      let total_allowed := base_limit + extra_limit in
      let rows := _read_csv w (csv info) in
      let current := _count_user_records rows user_id in
      if total_allowed <=? current then
        (set_user_extra_limit w user_id key current,
         mkReport (unlocked_keys rep ++ [key]) (skipped rep))
      else
        let remaining := total_allowed - current in
        (w, mkReport (unlocked_keys rep) (skipped rep ++ [(key, remaining)]))
  end.

(** [on_clear_command] from the point where the identity of the topic is
    known; the chat, topic and identity look-ups before it and the
    messages after it belong to the transport. *)
Definition on_clear_command (w : World) (user_id : Z) : World * ClearReport :=
  let used_types := get_user_used_types w user_id in
  fold_left (clear_step user_id) used_types (w, mkReport [] []).

(** ** Statistics *)

Module PyTime.

(** A naive [datetime]. *)
Record datetime := mkDT {
  year : Z; month : Z; day : Z;
  hour : Z; minute : Z; second : Z; microsecond : Z
}.

Definition is_leap (y : Z) : bool :=
  (y mod 4 =? 0) && (negb (y mod 100 =? 0) || (y mod 400 =? 0)).

Definition days_in_month (y m : Z) : Z :=
  if m =? 2 then (if is_leap y then 29 else 28)
  else if (m =? 4) || (m =? 6) || (m =? 9) || (m =? 11) then 30
  else 31.

Definition days_before_year (y : Z) : Z :=
  let p := y - 1 in p * 365 + p / 4 - p / 100 + p / 400.

Definition days_before_month (y m : Z) : Z :=
  fold_left (fun acc k => acc + days_in_month y (Z.of_nat k)) (seq 1 (Z.to_nat (m - 1))) 0.

(** [toordinal()]: day 1 is 0001-01-01. *)
Definition toordinal (d : datetime) : Z :=
  days_before_year (year d) + days_before_month (year d) (month d) + day d.

(** Microseconds since the start of day 0; naive datetimes are ordered as
    these numbers are, and [timedelta] arithmetic is addition on them. *)
Definition to_micro (d : datetime) : Z :=
  (((toordinal d * 24 + hour d) * 60 + minute d) * 60 + second d) * 1000000
  + microsecond d.

Definition micro_of_days (n : Z) : Z := n * 86400 * 1000000.

(** [a >= b - timedelta(days=n)] *)
Definition not_before (a b : datetime) (n : Z) : bool :=
  to_micro b - micro_of_days n <=? to_micro a.

(** The longest prefix of decimal digits and what follows it. *)
Fixpoint span_digits (s : string) : string * string :=
  match s with
  | String c r =>
      if is_digit c then let '(ds, rest) := span_digits r in (String c ds, rest)
      else (EmptyString, s)
  | EmptyString => (EmptyString, EmptyString)
  end.

Fixpoint digits_value (acc : Z) (s : string) : Z :=
  match s with
  | String c r => digits_value (10 * acc + (Z.of_nat (nat_of_ascii c) - 48)) r
  | EmptyString => acc
  end.

(** A field of one or two digits with its value in [lo..hi], then [rest]. *)
Definition num_field (lo hi : Z) (s : string) : option (Z * string) :=
  let '(ds, rest) := span_digits s in
  let n := String.length ds in
  let v := digits_value 0 ds in
  if ((1 <=? n)%nat && (n <=? 2)%nat) && ((lo <=? v) && (v <=? hi))
  then Some (v, rest) else None.

Definition expect (c : ascii) (s : string) : option string :=
  match s with
  | String c' r => if Ascii.eqb c c' then Some r else None
  | EmptyString => None
  end.

(** The day field also accepts a blank followed by one digit. *)
Definition day_field (s : string) : option (Z * string) :=
  match s with
  | String " " (String c r) =>
      let v := Z.of_nat (nat_of_ascii c) - 48 in
      match r with
      | String c' _ => if is_digit c' then None
                       else if (1 <=? v) && (v <=? 9) then Some (v, r) else None
      | EmptyString => if (1 <=? v) && (v <=? 9) then Some (v, r) else None
      end
  | _ => num_field 1 31 s
  end.

(** [datetime.strptime(s, "%Y.%m.%d %H:%M:%S")]; [None] stands for
    [ValueError]. *)
Definition strptime (s : string) : option datetime :=
  let '(ys, r) := span_digits s in
  if negb (String.length ys =? 4)%nat then None else
  let y := digits_value 0 ys in
  match expect "." r with None => None | Some r =>
  match num_field 1 12 r with None => None | Some (m, r) =>
  match expect "." r with None => None | Some r =>
  match day_field r with None => None | Some (d, r) =>
  match r with
  | EmptyString => None
  | String c _ =>
    if negb (is_space c) then None else
    match num_field 0 23 (lstrip r) with None => None | Some (h, r) =>
    match expect ":" r with None => None | Some r =>
    match num_field 0 59 r with None => None | Some (mi, r) =>
    match expect ":" r with None => None | Some r =>
    match num_field 0 61 r with None => None | Some (sec, r) =>
    if truthy r then None
    else if (1 <=? y) && (d <=? days_in_month y m) && (sec <=? 59)
    then Some (mkDT y m d h mi sec 0) else None
    end end end end end
  end end end end end.

End PyTime.

Import PyTime.

(** The counters [day_count], [week_count], [month_count] after one row. *)
Definition issued_step (now : datetime) (acc : Z * Z * Z) (row : Row) : Z * Z * Z :=
  let '(day_count, week_count, month_count) := acc in
  if (4 <=? List.length row)%nat && truthy (field 3 row) then
    match strptime (field 3 row) with
    | Some issued_date =>
        (if not_before issued_date now 1 then day_count + 1 else day_count,
         if not_before issued_date now 7 then week_count + 1 else week_count,
         if not_before issued_date now 30 then month_count + 1 else month_count)
    | None => acc
    end
  else acc.

Record PoolStats := mkStats {
  st_name : string; st_free : Z; st_total : Z;
  st_day : Z; st_week : Z; st_month : Z
}.

(** The body of the loop of [_count_stats] for one pool; [free_stats] and
    [issued_stats] get one entry each from it. *)
Definition pool_stats (w : World) (now : datetime) (info : BaseInfo) : PoolStats :=
  let rows := _read_csv w (csv info) in
  let total := Z.of_nat (List.length rows) - 1 in
  let free := Z.of_nat (List.length (filter (fun r => is_free r = true) (tail rows))) in
  let '(day_count, week_count, month_count) :=
    fold_left (issued_step now) (tail rows) (0, 0, 0) in
  mkStats (name info) free total day_count week_count month_count.

(** [_count_stats] of [on_stats]: the world after it and the statistics,
    pool by pool, at the instant [now]. *)
Definition _count_stats (w : World) (now : datetime) : World * list PoolStats :=
  (w, map (fun '(key, info) => pool_stats w now info) BASE_TYPES).

(** ** Operations of the engine, as one step function *)

Inductive op :=
  | OpAllocate (base_key : string) (user_id : Z) (username now : string)
  | OpImport (base_key : string) (new_values : list cell)
  | OpUnlock (user_id : Z)
  | OpSetExtra (user_id : Z) (base_type : string) (value : Z).

(** A call that raises [KeyError] leaves the world as it is. *)
Definition run_op (w : World) (o : op) : World :=
  match o with
  | OpAllocate k u name now =>
      match allocate_for_user w k u name now with
      | Some (w', _) => w'
      | None => w
      end
  | OpImport k vals =>
      match base_info k with
      | Some info => fst (_add_new_values w (csv info) vals)
      | None => w
      end
  | OpUnlock u => fst (on_clear_command w u)
  | OpSetExtra u k v => set_user_extra_limit w u k v
  end.

Definition run_ops (w : World) (ops : list op) : World := fold_left run_op ops w.

(** ** Vocabulary of the statements *)

(** The number of records of a pool file held by an identity. *)
Definition held (w : World) (info : BaseInfo) (user_id : Z) : Z :=
  _count_user_records (_read_csv w (csv info)) user_id.

Definition total_allowance (w : World) (key : string) (info : BaseInfo) (user_id : Z) : Z :=
  limit info + get_user_extra_limit w user_id key.

(** A record is unclaimed when its [claimed_by] column is empty or absent. *)
Definition unclaimed (row : Row) : bool := negb (truthy (field 1 row)).

(** An unclaimed record whose handed-out value is not empty. *)
Definition assignable (row : Row) : bool := unclaimed row && truthy (handout row).

(** The values, in storage order, of the assignable records. *)
Definition avail (records : list Row) : list string :=
  handout <$> filter (fun r => assignable r = true) records.

(** The record appended for an accepted value. *)
Definition new_row (val_clean : string) : Row := [val_clean; ""; ""; ""].

(** The values an import accepts, in order, given the set of lower-cased
    values it starts from. *)
Fixpoint added_values (existing : gset string) (new_values : list cell) : list string :=
  match new_values with
  | [] => []
  | val :: rest =>
      match clean_value val with
      | Some c =>
          if bool_decide (lower c ∈ existing) then added_values existing rest
          else c :: added_values (existing ∪ {[ lower c ]}) rest
      | None => added_values existing rest
      end
  end.

(** The values accepted by importing [new_values] into the file at [path]. *)
Definition imported (w : World) (path : string) (new_values : list cell) : list string :=
  added_values (_get_existing_values (_read_csv w path)) new_values.


(** Every identity is within its allowance in every pool. *)
Definition quota_ok (w : World) : Prop :=
  forall key info user_id,
    base_info key = Some info ->
    held w info user_id <= total_allowance w key info user_id.

(** A direct [set_user_extra_limit] that does not put the allowance below
    what the identity already holds; the other operations are always
    admissible. *)
Definition admissible (w : World) (o : op) : Prop :=
  match o with
  | OpSetExtra u k v =>
      forall info, base_info k = Some info -> held w info u <= limit info + v
  | _ => True
  end.

Fixpoint admissible_run (w : World) (ops : list op) : Prop :=
  match ops with
  | [] => True
  | o :: rest => admissible w o /\ admissible_run (run_op w o) rest
  end.

(** The identity has used up its allowance in the pool. *)
Definition exhausted (w : World) (user_id : Z) (key : string) : bool :=
  match base_info key with
  | Some info => total_allowance w key info user_id <=? held w info user_id
  | None => false
  end.

(** The instant in the [claimed_at] column, when there is one. *)
Definition claimed_at (row : Row) : option datetime :=
  match row !! 3%nat with
  | Some s => strptime s
  | None => None
  end.

(** [claimed_at >= now - timedelta(days=n)] *)
Definition claimed_within (now : datetime) (n : Z) (row : Row) : bool :=
  match claimed_at row with
  | Some t => not_before t now n
  | None => false
  end.

Definition count_if (P : Row -> bool) (records : list Row) : Z :=
  Z.of_nat (List.length (filter (fun r => P r = true) records)).

(** Every pool file that exists starts with a line, its header. *)
Definition headed (w : World) : Prop :=
  forall path rows, files w !! path = Some rows -> rows <> [].

(** What the statistics of one pool must be: its name, the number of
    unclaimed records, the number of records, and the numbers of records
    claimed within the last 1, 7 and 30 days. *)
Definition stats_of (w : World) (now : datetime) (info : BaseInfo) (s : PoolStats) : Prop :=
  let records := tail (_read_csv w (csv info)) in
  st_name s = name info /\
  st_free s = count_if unclaimed records /\
  st_total s = Z.of_nat (List.length records) /\
  st_day s = count_if (claimed_within now 1) records /\
  st_week s = count_if (claimed_within now 7) records /\
  st_month s = count_if (claimed_within now 30) records.

(** The instant used as the present in the samples. *)
Definition noon : datetime := mkDT 2024 5 18 12 0 0 250000.

(** A counter after one more row. *)
Definition bump (b : bool) (n : Z) : Z := if b then n + 1 else n.

(** The four columns of a record. *)
Definition columns (row : Row) : string * string * string * string :=
  (field 0 row, field 1 row, field 2 row, field 3 row).

(** ** Sample worlds *)

(** The instant used to stamp claims in the samples. *)
Definition stamp : string := "2024.05.17 09:30:00".

(** The pool [max] (base limit 35) after importing ["=="] and the
    thirty-four values ["1"] to ["34"] into the empty world. The first
    candidate is stored as ["="], which hands out the empty value. *)
Definition batch35 : list cell :=
  CStr "==" :: map (fun n => CStr (py_str (Z.of_nat n))) (seq 1 34).

Definition world35 : World := fst (_add_new_values empty_world "base_max.csv" batch35).

(** The pool [max] after importing the forty values ["1"] to ["40"]. *)
Definition world_full : World :=
  fst (_add_new_values empty_world "base_max.csv"
         (map (fun n => CStr (py_str (Z.of_nat n))) (seq 1 40))).

(** [world_full] after identity 7 has taken its 35 records of [max]. *)
Definition world_taken : World := run_op world_full (OpAllocate "max" 7 "bob" stamp).

(** Seventy values for [max]; identity 7 takes 35 of them, is unlocked,
    takes the other 35, and then has its extra limit set to 0. *)
Definition batch70 : list cell := map (fun n => CStr (py_str (Z.of_nat n))) (seq 1 70).

Definition ops_reset : list op :=
  [ OpImport "max" batch70;
    OpAllocate "max" 7 "bob" stamp;
    OpUnlock 7;
    OpAllocate "max" 7 "bob" stamp;
    OpSetExtra 7 "max" 0 ].

(** The same, the last step setting the extra limit to 40 instead. *)
Definition ops_raise : list op :=
  [ OpImport "max" batch70;
    OpAllocate "max" 7 "bob" stamp;
    OpUnlock 7;
    OpAllocate "max" 7 "bob" stamp;
    OpSetExtra 7 "max" 40 ].

(** A [max] pool file of thirty-five blank lines under the header. *)
Definition world_blank : World :=
  mkWorld {[ "base_max.csv" := HEADER :: replicate 35 [] ]} ∅ [].

(** The pool [telegram] after importing the single candidate ["= foo"],
    which is stored with its leading blank. *)
Definition world_foo : World :=
  fst (_add_new_values empty_world "base_telegram.csv" [CStr "= foo"]).


(** ** Pool files at start-up and at a wipe *)

(** [ensure_csv_exists]: a pool file that does not exist is created with
    the header line alone (written with [open], not through
    [_write_csv]). *)
Definition ensure_csv_exists (w : World) : World :=
  fold_left
    (fun w '(key, info) =>
       match files w !! csv info with
       | None => mkWorld (<[csv info := [HEADER]]> (files w)) (limits w) (writes w)
       | Some _ => w
       end)
    BASE_TYPES w.

(** [clear_all_databases]: every pool file that exists is overwritten
    with the header line alone; the result counts these files. *)
Definition clear_all_databases (w : World) : World * Z :=
  fold_left
    (fun '(w, count) '(key, info) =>
       match files w !! csv info with
       | Some _ =>
           (mkWorld (<[csv info := [HEADER]]> (files w)) (limits w) (writes w), count + 1)
       | None => (w, count)
       end)
    BASE_TYPES (w, 0).

(** ** The contacts of an identity *)

(** The test and the value of the loop body of [get_user_contacts]:
    [len(row) >= 2 and row[1] == str(user_id)], then the handed-out value
    when it is not empty. *)
Definition user_contact (user_id : Z) (row : Row) : option string :=
  if (2 <=? List.length row)%nat && String.eqb (field 1 row) (py_str user_id) then
    let value := handout row in
    if truthy value then Some value else None
  else None.

(** The list [contacts] that [get_user_contacts] builds for one pool. *)
Definition pool_contacts (w : World) (user_id : Z) (info : BaseInfo) : list string :=
  omap (user_contact user_id) (tail (_read_csv w (csv info))).

(** [get_user_contacts]: the dictionary from pool key to contacts, as the
    list of its items in insertion order; a pool without contacts has no
    entry. *)
Definition get_user_contacts (w : World) (user_id : Z) : list (string * list string) :=
  fold_left
    (fun result '(key, info) =>
       match pool_contacts w user_id info with
       | [] => result
       | contacts => result ++ [(key, contacts)]
       end)
    BASE_TYPES [].

(** ** Further vocabulary *)





(** An unclaimed record has neither label nor timestamp. *)
Definition consistent_rows (rows : list (list string)) : Prop :=
  forall row, row ∈ tail rows -> unclaimed row = true ->
    field 2 row = "" /\ field 3 row = "".

Definition consistent (w : World) : Prop :=
  forall path rows, files w !! path = Some rows -> consistent_rows rows.

(** Whether a claim stamped [stamp_text] falls in the window of [n] days
    before [now]. *)
Definition stamp_within (now : datetime) (n : Z) (stamp_text : string) : bool :=
  match strptime stamp_text with
  | Some t => not_before t now n
  | None => false
  end.

(** What a scan for an identity may turn a list of records into, with the
    values it collects: a record is kept (as it is or padded to four
    columns), or it was assignable and is claimed. *)
Inductive Scanned (user_id : Z) (username now : string)
    : list (list string) -> list (list string) -> list string -> Prop :=
  | scanned_nil : Scanned user_id username now [] [] []
  | scanned_keep row row' rest rest' values :
      row' = row \/ row' = pad4 row ->
      Scanned user_id username now rest rest' values ->
      Scanned user_id username now (row :: rest) (row' :: rest') values
  | scanned_claim row rest rest' values :
      assignable row = true ->
      Scanned user_id username now rest rest' values ->
      Scanned user_id username now (row :: rest)
        (claim user_id username now (pad4 row) :: rest') (handout row :: values).

(** ** Further samples *)

(** The values identity 7 receives from [world_full]. *)
Definition taken35 : list string := map (fun n => py_str (Z.of_nat n)) (seq 1 35).





(** * Properties *)

(** ** Integers and their decimal text *)

Section DecimalText.

Lemma is_digit_not_space c : is_digit c = true -> is_space c = false.
Proof.
  unfold is_digit, is_space. generalize (nat_of_ascii c). intros n H.
  apply andb_true_iff in H as [H1 H2].
  apply Nat.leb_le in H1. apply Nat.leb_le in H2.
  apply orb_false_iff. split; apply andb_false_iff.
  - right. apply Nat.leb_gt. lia.
  - right. apply Nat.leb_gt. lia.
Qed.

Lemma is_digit_not_sign c :
  is_digit c = true -> Ascii.eqb c "-" = false /\ Ascii.eqb c "+" = false.
Proof.
  intros H. split; apply Ascii.eqb_neq; intros ->; discriminate H.
Qed.

Lemma uint_text_digits d : all_chars is_digit (NilEmpty.string_of_uint d) = true.
Proof. induction d; simpl; auto. Qed.

Lemma uint_text_truthy d : d <> Decimal.Nil -> truthy (NilEmpty.string_of_uint d) = true.
Proof. destruct d; simpl; congruence. Qed.

Lemma rstrip_digits s : all_chars is_digit s = true -> rstrip s = s.
Proof.
  induction s as [|c r IH]; simpl; [reflexivity|].
  intros H. apply andb_true_iff in H as [Hc Hr].
  rewrite (IH Hr), (is_digit_not_space _ Hc). reflexivity.
Qed.

Lemma strip_digits s : all_chars is_digit s = true -> strip s = s.
Proof.
  intros H. unfold strip.
  destruct s as [|c r]; simpl; [reflexivity|].
  pose proof H as H'. simpl in H'. apply andb_true_iff in H' as [Hc _].
  rewrite (is_digit_not_space _ Hc). apply (rstrip_digits _ H).
Qed.

Lemma int_digits_plain s prev :
  all_chars is_digit s = true -> truthy s || prev = true ->
  int_digits prev s = Some s.
Proof.
  revert prev. induction s as [|c r IH]; simpl; intros prev H Hp.
  - rewrite Hp. reflexivity.
  - apply andb_true_iff in H as [Hc Hr]. rewrite Hc.
    rewrite (IH true Hr); [reflexivity|]. apply orb_true_r.
Qed.

Lemma int_unsigned_text d :
  d <> Decimal.Nil -> int_unsigned (NilEmpty.string_of_uint d) = Some (Z.of_uint d).
Proof.
  intros Hd. unfold int_unsigned.
  rewrite int_digits_plain.
  - rewrite NilEmpty.usu. reflexivity.
  - apply uint_text_digits.
  - rewrite (uint_text_truthy _ Hd). reflexivity.
Qed.

Lemma py_int_uint_text d :
  d <> Decimal.Nil -> py_int (NilEmpty.string_of_uint d) = Some (Z.of_uint d).
Proof.
  intros Hd. unfold py_int. rewrite strip_digits by apply uint_text_digits.
  pose proof (uint_text_digits d) as Hall.
  pose proof (int_unsigned_text d Hd) as Hval.
  destruct (NilEmpty.string_of_uint d) as [|c r] eqn:E.
  - destruct d; discriminate.
  - simpl in Hall. apply andb_true_iff in Hall as [Hc _].
    destruct (is_digit_not_sign _ Hc) as [-> ->]. exact Hval.
Qed.

Lemma py_int_neg_text d :
  d <> Decimal.Nil ->
  py_int (String "-" (NilEmpty.string_of_uint d)) = Some (- Z.of_uint d).
Proof.
  intros Hd. unfold py_int, strip. simpl lstrip.
  change (rstrip (String "-" (NilEmpty.string_of_uint d)))
    with (String "-" (rstrip (NilEmpty.string_of_uint d))).
  rewrite rstrip_digits by apply uint_text_digits.
  simpl. rewrite (int_unsigned_text d Hd). reflexivity.
Qed.

(** [int(str(n)) == n] *)
Lemma py_int_py_str n : py_int (py_str n) = Some n.
Proof.
  unfold py_str. rewrite <- (DecimalZ.of_to n) at 2.
  destruct n as [|p|p]; simpl Z.to_int.
  - reflexivity.
  - pose proof (Unsigned.to_uint_nonnil p) as Hp.
    simpl. unfold NilZero.string_of_uint.
    destruct (Pos.to_uint p) eqn:E; try congruence;
      rewrite <- E; rewrite py_int_uint_text by (rewrite E; discriminate);
      reflexivity.
  - pose proof (Unsigned.to_uint_nonnil p) as Hp.
    simpl. unfold NilZero.string_of_uint.
    destruct (Pos.to_uint p) eqn:E; try congruence;
      rewrite <- E; rewrite py_int_neg_text by (rewrite E; discriminate);
      reflexivity.
Qed.

Lemma py_str_truthy n : truthy (py_str n) = true.
Proof.
  pose proof (py_int_py_str n) as H.
  destruct (py_str n); [discriminate H | reflexivity].
Qed.

End DecimalText.

(** ** Rows, columns and counting *)

Section RowFacts.

Implicit Types (row : Row) (rows : list Row) (u v : Z).

Lemma field_pad4 j row : field j (pad4 row) = field j row.
Proof.
  unfold field, pad4. destruct (List.length row <? 4)%nat; [|reflexivity].
  rewrite lookup_app. destruct (row !! j) as [x|] eqn:E; [reflexivity|].
  destruct (replicate _ _ !! _) as [y|] eqn:R; [|reflexivity].
  apply lookup_replicate in R as [-> _]. reflexivity.
Qed.

Lemma length_pad4 row : (4 <= List.length (pad4 row))%nat.
Proof.
  unfold pad4. destruct (List.length row <? 4)%nat eqn:E.
  - apply Nat.ltb_lt in E. rewrite length_app, length_replicate. lia.
  - apply Nat.ltb_ge in E. exact E.
Qed.

Lemma is_free_unclaimed row : is_free row = unclaimed row.
Proof.
  unfold is_free, unclaimed, field.
  destruct (List.length row <? 2)%nat eqn:E; [|reflexivity].
  apply Nat.ltb_lt in E.
  rewrite (lookup_ge_None_2 row 1%nat) by lia. reflexivity.
Qed.

Lemma counts_for_field u row :
  counts_for u row =
  truthy (field 1 row) &&
  match py_int (field 1 row) with Some n => n =? u | None => false end.
Proof.
  unfold counts_for, field. destruct (row !! 1%nat); reflexivity.
Qed.

Lemma counts_for_pad4 u row : counts_for u (pad4 row) = counts_for u row.
Proof. rewrite !counts_for_field, field_pad4. reflexivity. Qed.

Lemma counts_for_unclaimed u row : unclaimed row = true -> counts_for u row = false.
Proof.
  rewrite counts_for_field. unfold unclaimed.
  destruct (truthy (field 1 row)); [discriminate | reflexivity].
Qed.

Lemma field_claim_1 u uname now row :
  (4 <= List.length row)%nat -> field 1 (claim u uname now row) = py_str u.
Proof.
  intros H. unfold field, claim.
  rewrite list_lookup_insert_ne by lia.
  rewrite list_lookup_insert_ne by lia.
  rewrite list_lookup_insert_eq by lia. reflexivity.
Qed.

Lemma field_claim_0 u uname now row :
  field 0 (claim u uname now row) = field 0 row.
Proof.
  unfold field, claim.
  rewrite !list_lookup_insert_ne by lia. reflexivity.
Qed.

Lemma counts_for_claim u v uname now row :
  (4 <= List.length row)%nat ->
  counts_for v (claim u uname now row) = (u =? v).
Proof.
  intros H. rewrite counts_for_field, (field_claim_1 _ _ _ _ H).
  rewrite py_str_truthy, py_int_py_str. reflexivity.
Qed.

Lemma count_fold u (l : list Row) acc :
  fold_left (fun count row => if counts_for u row then count + 1 else count) l acc
  = acc + count_if (counts_for u) l.
Proof.
  unfold count_if. revert acc. induction l as [|row l IH]; intros acc; simpl.
  - lia.
  - rewrite IH, filter_cons. destruct (counts_for u row) eqn:E.
    + rewrite decide_True by reflexivity. simpl. lia.
    + rewrite decide_False by discriminate. lia.
Qed.

Lemma count_user_records_spec rows u :
  _count_user_records rows u = count_if (counts_for u) (tail rows).
Proof. unfold _count_user_records. rewrite count_fold. lia. Qed.

Lemma count_if_nonneg P (l : list Row) : 0 <= count_if P l.
Proof. unfold count_if. lia. Qed.

Lemma count_if_cons P row (l : list Row) :
  count_if P (row :: l) = (if P row then 1 else 0) + count_if P l.
Proof.
  unfold count_if. rewrite filter_cons. destruct (P row) eqn:E.
  - rewrite decide_True by reflexivity. simpl List.length. lia.
  - rewrite decide_False by discriminate. lia.
Qed.

Lemma count_if_nil P : count_if P [] = 0.
Proof. reflexivity. Qed.

Lemma count_if_app P (l1 l2 : list Row) :
  count_if P (l1 ++ l2) = count_if P l1 + count_if P l2.
Proof.
  induction l1 as [|r l1 IH]; simpl.
  - rewrite count_if_nil. lia.
  - rewrite !count_if_cons, IH. lia.
Qed.

Lemma count_if_ext P Q (l : list Row) :
  (forall r, P r = Q r) -> count_if P l = count_if Q l.
Proof.
  intros H. induction l as [|r l IH]; [reflexivity|].
  rewrite !count_if_cons, IH, H. reflexivity.
Qed.

Lemma count_if_le P Q (l : list Row) :
  (forall r, P r = true -> Q r = true) -> count_if P l <= count_if Q l.
Proof.
  intros H. induction l as [|r l IH]; [reflexivity|].
  rewrite !count_if_cons. destruct (P r) eqn:E.
  - rewrite (H _ E). lia.
  - destruct (Q r); lia.
Qed.

Lemma count_if_tail_le P (l : list Row) : count_if P (tail l) <= count_if P l.
Proof.
  destruct l as [|r l]; [reflexivity|]. simpl tail. rewrite count_if_cons.
  destruct (P r); lia.
Qed.

End RowFacts.

(** ** The claiming scan *)

Section Scan.

Variables (count user_id : Z) (username now : string).

Local Abbreviation scan := (assign_loop count user_id username now).

Lemma handout_pad4 row : handout (pad4 row) = handout row.
Proof. unfold handout. rewrite field_pad4. reflexivity. Qed.

Lemma unclaimed_pad4 row : unclaimed (pad4 row) = unclaimed row.
Proof. unfold unclaimed. rewrite field_pad4. reflexivity. Qed.

(** The shape of one turn of the scan, as four cases. *)
Lemma scan_cons row rest taken :
  scan (row :: rest) taken =
  if count <=? Z.of_nat (List.length taken) then (row :: rest, taken)
  else if negb (assignable row)
       then (pad4 row :: fst (scan rest taken), snd (scan rest taken))
       else (claim user_id username now (pad4 row) :: fst (scan rest (taken ++ [handout row])),
             snd (scan rest (taken ++ [handout row]))).
Proof.
  simpl. destruct (count <=? _); [reflexivity|].
  unfold assignable. rewrite <- (unclaimed_pad4 row), <- (handout_pad4 row).
  unfold unclaimed.
  destruct (truthy (field 1 (pad4 row))); simpl.
  - destruct (scan rest taken); reflexivity.
  - destruct (truthy (handout (pad4 row))); simpl.
    + destruct (scan rest _); reflexivity.
    + destruct (scan rest taken); reflexivity.
Qed.

Lemma avail_cons row rest :
  avail (row :: rest) = if assignable row then handout row :: avail rest else avail rest.
Proof.
  unfold avail. rewrite filter_cons. destruct (assignable row) eqn:E.
  - rewrite decide_True by reflexivity. reflexivity.
  - rewrite decide_False by discriminate. reflexivity.
Qed.


(** What the scan collects: the first values still wanted, in order. *)
Lemma scan_taken rest taken :
  snd (scan rest taken) =
  taken ++ take (Z.to_nat (count - Z.of_nat (List.length taken))) (avail rest).
Proof.
  revert taken. induction rest as [|row rest IH]; intros taken.
  - simpl. change (avail []) with (@nil string). rewrite take_nil, app_nil_r. reflexivity.
  - rewrite scan_cons, avail_cons.
    destruct (count <=? Z.of_nat (List.length taken)) eqn:Hb.
    + apply Z.leb_le in Hb. simpl.
      replace (Z.to_nat _) with 0%nat by lia. rewrite take_0, app_nil_r. reflexivity.
    + apply Z.leb_gt in Hb. destruct (assignable row); simpl.
      * rewrite IH, length_app. simpl List.length.
        replace (Z.to_nat (count - Z.of_nat (List.length taken)))
          with (S (Z.to_nat (count - Z.of_nat (List.length taken + 1)))) by lia.
        simpl. rewrite <- app_assoc. reflexivity.
      * apply IH.
Qed.

Lemma scan_length rest taken : List.length (fst (scan rest taken)) = List.length rest.
Proof.
  revert taken. induction rest as [|row rest IH]; intros taken; [reflexivity|].
  rewrite scan_cons. destruct (count <=? _); [reflexivity|].
  destruct (assignable row); simpl; rewrite IH; reflexivity.
Qed.

(** A row comes out of the scan untouched, padded, or freshly claimed; the
    last only if it was unclaimed. *)
Lemma scan_rows rest taken i row :
  rest !! i = Some row ->
  exists row',
    fst (scan rest taken) !! i = Some row' /\
    (row' = row \/ row' = pad4 row \/
     (assignable row = true /\ row' = claim user_id username now (pad4 row))).
Proof.
  revert taken i. induction rest as [|r rest IH]; intros taken i Hi; [discriminate|].
  rewrite scan_cons. destruct (count <=? _).
  - exists row. split; [exact Hi | left; reflexivity].
  - destruct i as [|i]; simpl in Hi.
    + injection Hi as ->. destruct (assignable row) eqn:E; simpl.
      * eexists. split; [reflexivity|]. right. right. split; reflexivity.
      * eexists. split; [reflexivity|]. right. left. reflexivity.
    + destruct (assignable r); simpl; apply IH; exact Hi.
Qed.

(** The scan gives the identity as many records as it collects values. *)
Lemma scan_count_self rest taken :
  count_if (counts_for user_id) (fst (scan rest taken)) =
  count_if (counts_for user_id) rest
  + (Z.of_nat (List.length (snd (scan rest taken))) - Z.of_nat (List.length taken)).
Proof.
  revert taken. induction rest as [|row rest IH]; intros taken.
  - simpl. rewrite count_if_nil. lia.
  - rewrite scan_cons. destruct (count <=? _); [simpl; lia|].
    destruct (assignable row) eqn:E; simpl.
    + rewrite !count_if_cons, IH, length_app.
      rewrite counts_for_claim by apply length_pad4. rewrite Z.eqb_refl.
      apply andb_true_iff in E as [E _].
      rewrite (counts_for_unclaimed _ _ E). simpl List.length. lia.
    + rewrite !count_if_cons, IH, counts_for_pad4. lia.
Qed.

(** It gives nothing to anybody else. *)
Lemma scan_count_other v rest taken :
  v <> user_id ->
  count_if (counts_for v) (fst (scan rest taken)) = count_if (counts_for v) rest.
Proof.
  intros Hv. revert taken. induction rest as [|row rest IH]; intros taken; [reflexivity|].
  rewrite scan_cons. destruct (count <=? _); [reflexivity|].
  destruct (assignable row) eqn:E; simpl.
  - rewrite !count_if_cons, IH.
    rewrite counts_for_claim by apply length_pad4.
    apply andb_true_iff in E as [E _].
    rewrite (counts_for_unclaimed _ _ E).
    destruct (user_id =? v) eqn:Q; [apply Z.eqb_eq in Q; congruence | reflexivity].
  - rewrite !count_if_cons, IH, counts_for_pad4. reflexivity.
Qed.

End Scan.

Lemma assign_records_csv_spec header rest count user_id username now :
  _assign_records_csv (header :: rest) count user_id username now =
  (header :: fst (assign_loop count user_id username now rest []),
   snd (assign_loop count user_id username now rest [])).
Proof. simpl. destruct (assign_loop _ _ _ _ _ _); reflexivity. Qed.

Lemma assign_records_csv_taken rows count user_id username now :
  snd (_assign_records_csv rows count user_id username now) =
  take (Z.to_nat count) (avail (tail rows)).
Proof.
  destruct rows as [|header rest].
  { simpl. change (avail []) with (@nil string). rewrite take_nil. reflexivity. }
  rewrite assign_records_csv_spec. simpl snd. rewrite scan_taken. simpl.
  rewrite Z.sub_0_r. reflexivity.
Qed.

(** ** Allocation *)

Section Allocation.

Variables (w : World) (base_key : string) (user_id : Z) (username now : string).
Variable info : BaseInfo.
Hypothesis Hinfo : base_info base_key = Some info.

Local Abbreviation rows := (_read_csv w (csv info)).
Local Abbreviation current := (held w info user_id).
Local Abbreviation total_allowed := (total_allowance w base_key info user_id).
Local Abbreviation can_give := (total_allowed - current).

Lemma allocate_already_got :
  total_allowed <= current ->
  allocate_for_user w base_key user_id username now = Some (w, ([], Some already_got)).
Proof.
  intros H. unfold allocate_for_user. rewrite Hinfo.
  apply Z.leb_le in H. unfold total_allowance, held in H.
  rewrite H. reflexivity.
Qed.

Lemma allocate_not_enough :
  current < total_allowed -> count_if is_free rows < can_give ->
  allocate_for_user w base_key user_id username now = Some (w, ([], Some not_enough)).
Proof.
  intros H F. unfold allocate_for_user. rewrite Hinfo.
  apply Z.leb_gt in H. unfold total_allowance, held in H.
  rewrite H. apply Z.ltb_lt in F.
  unfold total_allowance, held, count_if in F.
  rewrite F. reflexivity.
Qed.

Lemma allocate_scan :
  current < total_allowed -> can_give <= count_if is_free rows ->
  allocate_for_user w base_key user_id username now =
  match snd (_assign_records_csv rows can_give user_id username now) with
  | [] => Some (w, ([], None))
  | v :: vs =>
      Some (_write_csv w (csv info)
              (fst (_assign_records_csv rows can_give user_id username now)),
            (v :: vs, None))
  end.
Proof.
  intros H F. unfold allocate_for_user. rewrite Hinfo.
  apply Z.leb_gt in H. unfold total_allowance, held in H.
  rewrite H. apply Z.ltb_ge in F.
  unfold total_allowance, held, count_if in F.
  rewrite F.
  unfold total_allowance, held.
  destruct (_assign_records_csv _ _ _ _ _) as [rows' taken]. simpl.
  destruct taken; reflexivity.
Qed.


End Allocation.






(** C10. When both checks pass, [allocate_for_user] reports success with
    the values the scan claimed, whatever their number: with none claimed
    the result is the empty list and the world is untouched (nothing is
    written); with at least one claimed the pool file is written once,
    with the rows as the scan left them. *)
Theorem allocate_success_write w base_key user_id username now info :
  base_info base_key = Some info ->
  held w info user_id < total_allowance w base_key info user_id ->
  total_allowance w base_key info user_id - held w info user_id
    <= count_if is_free (_read_csv w (csv info)) ->
  let scan := _assign_records_csv (_read_csv w (csv info))
                (total_allowance w base_key info user_id - held w info user_id)
                user_id username now in
  exists w',
    allocate_for_user w base_key user_id username now = Some (w', (snd scan, None)) /\
    (snd scan = [] -> w' = w) /\
    (snd scan <> [] -> w' = _write_csv w (csv info) (fst scan)) /\
    (writes w' = writes w ++ [csv info] <-> snd scan <> []) /\
    (writes w' = writes w <-> snd scan = []).
Proof.
  intros Hinfo Hq Hf scan.
  rewrite (allocate_scan _ _ _ username now _ Hinfo Hq Hf). fold scan.
  destruct (snd scan) as [|v vs] eqn:E.
  - exists w. split; [reflexivity|]. repeat split; try congruence.
    + intros H. apply (f_equal (@List.length string)) in H.
      rewrite length_app in H. simpl in H. lia.
  - eexists. split; [reflexivity|]. repeat split; try congruence.
    + intros H. simpl in H. apply (f_equal (@List.length string)) in H.
      rewrite length_app in H. simpl in H. lia.
Qed.

Lemma allocate_success_write_witness :
  exists w',
    allocate_for_user world_blank "max" 7 "bob" stamp = Some (w', ([], None)) /\
    w' = world_blank.
Proof.
  destruct (allocate_success_write world_blank "max" 7 "bob" stamp
              (mkBase "Max" "base_max.csv" 35)) as (w' & Hret & Hsame & _).
  - reflexivity.
  - vm_compute. reflexivity.
  - vm_compute. discriminate.
  - exists w'. split.
    + exact Hret.
    + apply Hsame. reflexivity.
Defined.

(** ** Import *)

Section Importer.

Implicit Types (existing : gset string) (rows : list (list string)).

Lemma add_fold new_values rows existing added :
  fold_left add_step new_values (rows, existing, added) =
  (rows ++ (new_row <$> added_values existing new_values),
   existing ∪ list_to_set (lower <$> added_values existing new_values),
   added + Z.of_nat (List.length (added_values existing new_values))).
Proof.
  revert rows existing added.
  induction new_values as [|val rest IH]; intros rows existing added; simpl.
  - rewrite app_nil_r, Z.add_0_r. f_equal. f_equal. set_solver.
  - destruct (clean_value val) as [c|] eqn:Hc; [|apply IH].
    destruct (bool_decide (lower c ∈ existing)) eqn:Hin; [apply IH|].
    rewrite IH. simpl. rewrite <- app_assoc. simpl.
    f_equal; [f_equal; set_solver | lia].
Qed.

Lemma add_new_values_spec w csv_path new_values :
  _add_new_values w csv_path new_values =
  match imported w csv_path new_values with
  | [] => (w, 0)
  | c :: cs =>
      (_write_csv w csv_path (_read_csv w csv_path ++ (new_row <$> c :: cs)),
       Z.of_nat (List.length (c :: cs)))
  end.
Proof.
  unfold _add_new_values, imported. rewrite add_fold.
  destruct (added_values _ _) as [|c cs]; [reflexivity|].
  replace (0 <? 0 + Z.of_nat (List.length (c :: cs))) with true
    by (symmetry; apply Z.ltb_lt; simpl List.length; lia).
  reflexivity.
Qed.

Lemma read_write_same w path rows : _read_csv (_write_csv w path rows) path = rows.
Proof. unfold _read_csv, _write_csv. simpl. rewrite lookup_insert_eq. reflexivity. Qed.

Lemma read_write_other w path path' rows :
  path <> path' -> _read_csv (_write_csv w path rows) path' = _read_csv w path'.
Proof.
  intros H. unfold _read_csv, _write_csv. simpl.
  rewrite lookup_insert_ne by exact H. reflexivity.
Qed.

Lemma import_read w csv_path new_values :
  _read_csv (fst (_add_new_values w csv_path new_values)) csv_path =
  _read_csv w csv_path ++ (new_row <$> imported w csv_path new_values).
Proof.
  rewrite add_new_values_spec. destruct (imported _ _ _) as [|c cs]; simpl fst.
  - rewrite app_nil_r. reflexivity.
  - apply read_write_same.
Qed.

Lemma import_read_other w csv_path path new_values :
  csv_path <> path ->
  _read_csv (fst (_add_new_values w csv_path new_values)) path = _read_csv w path.
Proof.
  intros H. rewrite add_new_values_spec. destruct (imported _ _ _); simpl fst.
  - reflexivity.
  - apply read_write_other, H.
Qed.

Lemma import_limits w csv_path new_values :
  limits (fst (_add_new_values w csv_path new_values)) = limits w.
Proof. rewrite add_new_values_spec. destruct (imported _ _ _); reflexivity. Qed.






End Importer.





(** C7 fails on the code: the candidate ["= foo"] is normalized to
    [" foo"], stored, then looked up as ["foo"]; importing the same list a
    second time returns 1 again and stores the value twice. *)
Lemma import_twice_duplicates :
  snd (_add_new_values empty_world "base_telegram.csv" [CStr "= foo"]) = 1 /\
  snd (_add_new_values world_foo "base_telegram.csv" [CStr "= foo"]) = 1 /\
  _read_csv world_foo "base_telegram.csv" = [HEADER; [" foo"; ""; ""; ""]] /\
  _read_csv (fst (_add_new_values world_foo "base_telegram.csv" [CStr "= foo"]))
            "base_telegram.csv"
  = [HEADER; [" foo"; ""; ""; ""]; [" foo"; ""; ""; ""]].
Proof. repeat split; reflexivity. Qed.

(** ** Statistics *)

Section Statistics.

Variable now : datetime.

Lemma issued_step_spec acc row :
  issued_step now acc row =
  (bump (claimed_within now 1 row) (acc.1.1),
   bump (claimed_within now 7 row) (acc.1.2),
   bump (claimed_within now 30 row) (acc.2)).
Proof.
  destruct acc as [[d k] m]. unfold issued_step, claimed_within, claimed_at, field.
  cbn [fst snd].
  destruct (4 <=? List.length row)%nat eqn:L.
  - apply Nat.leb_le in L.
    destruct (row !! 3%nat) as [s|] eqn:E.
    + change (default "" (Some s)) with s. cbn [andb]. destruct s as [|c s].
      * change (strptime "") with (@None datetime). reflexivity.
      * cbn [truthy andb]. unfold bump.
        generalize (strptime (String c s)). intros [t|]; reflexivity.
    + apply lookup_ge_None in E. lia.
  - apply Nat.leb_gt in L.
    rewrite (lookup_ge_None_2 row 3%nat) by lia. reflexivity.
Qed.

Lemma issued_fold (records : list (list string)) d k m :
  fold_left (issued_step now) records (d, k, m) =
  (d + count_if (claimed_within now 1) records,
   k + count_if (claimed_within now 7) records,
   m + count_if (claimed_within now 30) records).
Proof.
  revert d k m. induction records as [|row records IH]; intros d k m.
  - simpl. rewrite !count_if_nil, !Z.add_0_r. reflexivity.
  - cbn [fold_left]. rewrite issued_step_spec. cbn [fst snd].
    rewrite IH, !count_if_cons. unfold bump.
    destruct (claimed_within now 1 row), (claimed_within now 7 row),
      (claimed_within now 30 row);
      repeat match goal with |- (_, _) = (_, _) => apply f_equal2 end; lia.
Qed.

Lemma pool_stats_spec w info :
  pool_stats w now info =
  let rows := _read_csv w (csv info) in
  mkStats (name info)
    (count_if unclaimed (tail rows))
    (Z.of_nat (List.length rows) - 1)
    (count_if (claimed_within now 1) (tail rows))
    (count_if (claimed_within now 7) (tail rows))
    (count_if (claimed_within now 30) (tail rows)).
Proof.
  unfold pool_stats. rewrite issued_fold. simpl.
  f_equal. apply (count_if_ext is_free unclaimed), is_free_unclaimed.
Qed.

End Statistics.

Lemma headed_read w path : headed w -> _read_csv w path <> [].
Proof.
  intros H. unfold _read_csv. destruct (files w !! path) as [rows|] eqn:E.
  - exact (H _ _ E).
  - discriminate.
Qed.

Lemma headed_empty : headed empty_world.
Proof. intros path rows H. simpl in H. rewrite lookup_empty in H. discriminate. Qed.

Lemma headed_write w path rows : headed w -> rows <> [] -> headed (_write_csv w path rows).
Proof.
  intros H Hr p r. unfold _write_csv. simpl. rewrite lookup_insert.
  case_decide; [intros [= <-]; exact Hr | apply H].
Qed.

Lemma headed_import w path new_values :
  headed w -> headed (fst (_add_new_values w path new_values)).
Proof.
  intros H. rewrite add_new_values_spec.
  destruct (imported _ _ _) as [|c cs]; simpl fst; [exact H|].
  apply headed_write; [exact H|].
  intros E. apply app_eq_nil in E as [_ E]. discriminate E.
Qed.

Lemma Forall2_map_diag {A B} (P : A -> B -> Prop) (f : A -> B) (l : list A) :
  (forall x, x ∈ l -> P x (f x)) -> Forall2 P l (map f l).
Proof.
  induction l as [|x l IH]; intros H; simpl; constructor.
  - apply H. left.
  - apply IH. intros y Hy. apply H. right. exact Hy.
Qed.

(** C9. In a world whose pool files all have their header line,
    [_count_stats] leaves the world as it is and returns, for each pool of
    [BASE_TYPES] in order: its free count, the number of records with an
    empty [claimed_by]; its total, the number of records; and for 1, 7 and
    30 days the number of records whose [claimed_at] reads as an instant
    [t] with [t >= now - days]. *)
Theorem count_stats_spec w now :
  headed w ->
  fst (_count_stats w now) = w /\
  Forall2 (fun entry s => stats_of w now entry.2 s) BASE_TYPES (snd (_count_stats w now)).
Proof.
  intros Hw. split; [reflexivity|].
  unfold _count_stats. cbn [snd].
  apply (Forall2_map_diag (fun entry s => stats_of w now entry.2 s)).
  intros [key info] _. cbn [snd]. rewrite pool_stats_spec.
  unfold stats_of. cbn [st_name st_free st_total st_day st_week st_month].
  repeat split.
  pose proof (headed_read w (csv info) Hw) as Hne.
  destruct (_read_csv w (csv info)) as [|header records]; [congruence|].
  simpl tail. simpl List.length. lia.
Qed.

Lemma count_stats_spec_witness :
  fst (_count_stats world35 noon) = world35 /\
  Forall2 (fun entry s => stats_of world35 noon entry.2 s) BASE_TYPES
          (snd (_count_stats world35 noon)).
Proof.
  apply (count_stats_spec world35 noon).
  apply headed_import, headed_empty.
Defined.

(** ** The table of pools *)

Section Table.

Lemma lookup_base_elem table key info :
  lookup_base table key = Some info -> (key, info) ∈ table.
Proof.
  induction table as [|[k i] table IH]; simpl; [discriminate|].
  destruct (String.eqb k key) eqn:E.
  - apply String.eqb_eq in E. intros [= ->]. subst. left.
  - intros H. right. apply IH, H.
Qed.

Lemma base_info_elem key info : base_info key = Some info -> (key, info) ∈ BASE_TYPES.
Proof. apply lookup_base_elem. Qed.

Lemma base_types_each (P : string * BaseInfo -> Prop) :
  Forall P BASE_TYPES -> forall key info, base_info key = Some info -> P (key, info).
Proof.
  intros H key info Hk. apply base_info_elem in Hk.
  rewrite Forall_forall in H. apply H, Hk.
Qed.

Lemma base_limit_pos key info : base_info key = Some info -> 0 < limit info.
Proof.
  apply (base_types_each (fun e => 0 < limit e.2)).
  repeat constructor.
Qed.

Lemma base_info_of_elem key info : (key, info) ∈ BASE_TYPES -> base_info key = Some info.
Proof.
  revert key info.
  assert (H : Forall (fun e => base_info e.1 = Some e.2) BASE_TYPES)
    by (repeat constructor).
  intros key info Hk. rewrite Forall_forall in H. apply (H (key, info) Hk).
Qed.

Lemma base_csv_inj k1 i1 k2 i2 :
  base_info k1 = Some i1 -> base_info k2 = Some i2 -> csv i1 = csv i2 ->
  k1 = k2 /\ i1 = i2.
Proof.
  intros H1 H2.
  assert (H : Forall (fun e1 => Forall (fun e2 : string * BaseInfo =>
              csv e1.2 = csv e2.2 -> e1 = e2) BASE_TYPES) BASE_TYPES).
  { repeat constructor; simpl; intros E; solve [reflexivity | discriminate E]. }
  apply base_info_elem in H1, H2.
  rewrite Forall_forall in H. specialize (H _ H1).
  rewrite Forall_forall in H. specialize (H _ H2).
  intros E. specialize (H E). injection H as -> ->. split; reflexivity.
Qed.

Lemma base_keys_nodup : NoDup (BASE_TYPES.*1).
Proof. apply (bool_decide_unpack _). vm_compute. exact I. Qed.

End Table.

(** ** Manager unlock *)

Section Unlock.

Variable user_id : Z.

Lemma held_ext w1 w2 info : files w1 = files w2 -> held w1 info user_id = held w2 info user_id.
Proof. intros H. unfold held, _read_csv. rewrite H. reflexivity. Qed.

Lemma exhausted_ext w1 w2 key :
  files w1 = files w2 ->
  limits w1 !! (user_id, key) = limits w2 !! (user_id, key) ->
  exhausted w1 user_id key = exhausted w2 user_id key.
Proof.
  intros Hf Hl. unfold exhausted. destruct (base_info key) as [info|]; [|reflexivity].
  unfold total_allowance, get_user_extra_limit. rewrite Hl, (held_ext _ _ _ Hf). reflexivity.
Qed.

Lemma clear_step_spec w rep key info :
  base_info key = Some info ->
  clear_step user_id (w, rep) key =
  if exhausted w user_id key
  then (set_user_extra_limit w user_id key (held w info user_id),
        mkReport (unlocked_keys rep ++ [key]) (skipped rep))
  else (w, mkReport (unlocked_keys rep)
             (skipped rep ++ [(key, total_allowance w key info user_id - held w info user_id)])).
Proof.
  intros Hk. unfold clear_step, exhausted. rewrite Hk. reflexivity.
Qed.

Lemma used_types_fold w (l : list (string * BaseInfo)) acc :
  fold_left
    (fun used '(key, info) =>
       if 0 <? _count_user_records (_read_csv w (csv info)) user_id
       then used ++ [key] else used) l acc
  = acc ++ (filter (fun e => 0 < held w e.2 user_id) l).*1.
Proof.
  revert acc. induction l as [|[key info] l IH]; intros acc; simpl.
  - rewrite app_nil_r. reflexivity.
  - rewrite IH, filter_cons. fold (held w info user_id).
    destruct (0 <? held w info user_id) eqn:E.
    + apply Z.ltb_lt in E. rewrite decide_True by exact E.
      simpl. rewrite <- app_assoc. reflexivity.
    + apply Z.ltb_ge in E. rewrite decide_False by (simpl; lia). reflexivity.
Qed.

Lemma used_types_spec w :
  get_user_used_types w user_id = (filter (fun e => 0 < held w e.2 user_id) BASE_TYPES).*1.
Proof. unfold get_user_used_types. rewrite used_types_fold. reflexivity. Qed.

Lemma used_types_nodup w : NoDup (get_user_used_types w user_id).
Proof.
  rewrite used_types_spec.
  eapply sublist_NoDup; [apply base_keys_nodup|].
  apply fmap_sublist, sublist_filter.
Qed.

Lemma used_types_elem w key :
  key ∈ get_user_used_types w user_id <->
  exists info, base_info key = Some info /\ 0 < held w info user_id.
Proof.
  rewrite used_types_spec, list_elem_of_fmap. split.
  - intros ([k info] & -> & H). apply list_elem_of_filter in H as [Hh Hin].
    exists info. split; [apply base_info_of_elem, Hin | exact Hh].
  - intros (info & Hk & Hh). exists (key, info). split; [reflexivity|].
    apply list_elem_of_filter. split; [exact Hh | apply base_info_elem, Hk].
Qed.

(** The loop of [on_clear_command] over keys without repetition, started
    in a world [wi] that agrees with [w] on the files and on the
    allowances of the keys still to come. *)
Lemma clear_fold w keys : forall wi rep,
  NoDup keys ->
  (forall key, key ∈ keys -> is_Some (base_info key)) ->
  files wi = files w ->
  (forall key, key ∈ keys -> limits wi !! (user_id, key) = limits w !! (user_id, key)) ->
  let r := fold_left (clear_step user_id) keys (wi, rep) in
  files r.1 = files w /\ writes r.1 = writes wi /\
  unlocked_keys r.2 =
    unlocked_keys rep ++ filter (fun k => exhausted w user_id k = true) keys /\
  (forall key, key ∈ keys -> exhausted w user_id key = false ->
     exists info, base_info key = Some info /\
       (key, total_allowance w key info user_id - held w info user_id) ∈ skipped r.2) /\
  (forall u key, u <> user_id \/ key ∉ keys \/ exhausted w user_id key = false ->
     limits r.1 !! (u, key) = limits wi !! (u, key)) /\
  (forall key info, key ∈ keys -> exhausted w user_id key = true ->
     base_info key = Some info ->
     limits r.1 !! (user_id, key) = Some (held w info user_id)) /\
  (forall e, e ∈ skipped rep -> e ∈ skipped r.2).
Proof.
  induction keys as [|k keys IH]; intros wi rep Hnd Hin Hf Hl; cbn zeta.
  - simpl. rewrite app_nil_r. repeat split; auto.
    + intros key H. inversion H.
    + intros key info H. inversion H.
  - apply NoDup_cons in Hnd as [Hk Hnd].
    destruct (Hin k) as [info Hinfo]; [left|].
    cbn [fold_left]. rewrite (clear_step_spec _ _ _ _ Hinfo).
    assert (Hex : exhausted wi user_id k = exhausted w user_id k).
    { apply exhausted_ext; [exact Hf | apply Hl; left]. }
    assert (Hheld : held wi info user_id = held w info user_id)
      by (apply held_ext, Hf).
    assert (Htot : total_allowance wi k info user_id = total_allowance w k info user_id).
    { unfold total_allowance, get_user_extra_limit. rewrite Hl by left. reflexivity. }
    rewrite Hex, Hheld, Htot.
    destruct (exhausted w user_id k) eqn:E.
    + edestruct (IH (set_user_extra_limit wi user_id k (held w info user_id))
                    (mkReport (unlocked_keys rep ++ [k]) (skipped rep)))
        as (F & W & U & S & L1 & L2 & M); [exact Hnd | | exact Hf | | ].
      { intros key H. apply Hin. right. exact H. }
      { intros key H. simpl. rewrite lookup_insert_ne; [apply Hl; right; exact H|].
        intros [= ->]. contradiction. }
      split; [exact F|]. split; [exact W|]. split.
      { rewrite U, filter_cons, decide_True by exact E. simpl.
        rewrite <- app_assoc. reflexivity. }
      split.
      { intros key H Hx. apply elem_of_cons in H as [->|H]; [congruence|].
        apply S; assumption. }
      split.
      { intros u key H. rewrite L1.
        - simpl. apply lookup_insert_ne. intros [= -> ->].
          destruct H as [H|[H|H]]; [congruence | apply H; left | congruence].
        - destruct H as [H|[H|H]]; [left; exact H | | right; right; exact H].
          right. left. intros H'. apply H. right. exact H'. }
      split; [|exact M].
      intros key info' H Hx Hi. apply elem_of_cons in H as [->|H].
      * rewrite L1 by (right; left; exact Hk). simpl.
        rewrite lookup_insert_eq. congruence.
      * apply (L2 key info' H Hx Hi).
    + edestruct (IH wi
                    (mkReport (unlocked_keys rep)
                       (skipped rep ++ [(k, total_allowance w k info user_id
                                            - held w info user_id)])))
        as (F & W & U & S & L1 & L2 & M); [exact Hnd | | exact Hf | | ].
      { intros key H. apply Hin. right. exact H. }
      { intros key H. apply Hl. right. exact H. }
      split; [exact F|]. split; [exact W|]. split.
      { rewrite U, filter_cons, decide_False by congruence. reflexivity. }
      split.
      { intros key H Hx. apply elem_of_cons in H as [->|H].
        - exists info. split; [exact Hinfo|]. apply M. simpl.
          apply elem_of_app. right. left.
        - apply S; assumption. }
      split.
      { intros u key H. destruct (decide (key ∈ keys)) as [Hkey|Hkey].
        - destruct (decide (u = user_id)) as [->|Hu]; [|apply L1; left; exact Hu].
          destruct (exhausted w user_id key) eqn:Ek; [|apply L1; right; right; exact Ek].
          destruct H as [H|[H|H]]; [congruence | | congruence].
          exfalso. apply H. right. exact Hkey.
        - apply L1. right. left. exact Hkey. }
      split.
      { intros key info' H Hx Hi. apply elem_of_cons in H as [->|H]; [congruence|].
        apply (L2 key info' H Hx Hi). }
      intros e He. apply M. simpl. apply elem_of_app. left. exact He.
Qed.

End Unlock.

Lemma exhausted_iff w user_id key info :
  base_info key = Some info ->
  exhausted w user_id key = true <->
  total_allowance w key info user_id <= held w info user_id.
Proof. intros H. unfold exhausted. rewrite H. apply Z.leb_le. Qed.

Lemma on_clear_command_fold w user_id :
  let r := on_clear_command w user_id in
  let keys := get_user_used_types w user_id in
  files r.1 = files w /\ writes r.1 = writes w /\
  unlocked_keys r.2 = filter (fun k => exhausted w user_id k = true) keys /\
  (forall key, key ∈ keys -> exhausted w user_id key = false ->
     exists info, base_info key = Some info /\
       (key, total_allowance w key info user_id - held w info user_id) ∈ skipped r.2) /\
  (forall u key, u <> user_id \/ key ∉ keys \/ exhausted w user_id key = false ->
     limits r.1 !! (u, key) = limits w !! (u, key)) /\
  (forall key info, key ∈ keys -> exhausted w user_id key = true ->
     base_info key = Some info ->
     limits r.1 !! (user_id, key) = Some (held w info user_id)).
Proof.
  cbn zeta. unfold on_clear_command.
  destruct (clear_fold user_id w (get_user_used_types w user_id) w (mkReport [] []))
    as (F & W & U & S & L1 & L2 & _).
  - apply used_types_nodup.
  - intros key H. apply used_types_elem in H as (info & Hi & _). exists info. exact Hi.
  - reflexivity.
  - reflexivity.
  - repeat split; assumption.
Qed.

(** C5. For an identity and a pool of [BASE_TYPES] in which it holds at
    least one record, [on_clear_command] unlocks the pool exactly when the
    identity holds at least [base_limit + extra_limit] records; it then
    sets the extra limit to the number held, so that the new allowance is
    that number plus the base limit; otherwise the ledger entry stays as it
    was and the pool is reported as skipped with what remains. Pool files,
    other identities and pools in which the identity holds nothing are
    left alone. *)
Theorem unlock_effect w user_id key info :
  base_info key = Some info ->
  0 < held w info user_id ->
  let w' := (on_clear_command w user_id).1 in
  let rep := (on_clear_command w user_id).2 in
  (key ∈ unlocked_keys rep <->
     total_allowance w key info user_id <= held w info user_id) /\
  (total_allowance w key info user_id <= held w info user_id ->
     get_user_extra_limit w' user_id key = held w info user_id /\
     total_allowance w' key info user_id = held w info user_id + limit info) /\
  (held w info user_id < total_allowance w key info user_id ->
     limits w' !! (user_id, key) = limits w !! (user_id, key) /\
     (key, total_allowance w key info user_id - held w info user_id) ∈ skipped rep) /\
  files w' = files w /\
  (forall u k, u <> user_id -> limits w' !! (u, k) = limits w !! (u, k)) /\
  (forall k i, base_info k = Some i -> held w i user_id <= 0 ->
     limits w' !! (user_id, k) = limits w !! (user_id, k)).
Proof.
  intros Hinfo Hheld w' rep.
  destruct (on_clear_command_fold w user_id) as (F & _ & U & S & L1 & L2).
  fold w' in F, L1, L2. fold rep in U, S.
  assert (Hused : key ∈ get_user_used_types w user_id).
  { apply used_types_elem. exists info. split; assumption. }
  pose proof (exhausted_iff w user_id key info Hinfo) as Hex.
  split; [|split; [|split; [|split; [|split]]]].
  - rewrite U, list_elem_of_filter, Hex. tauto.
  - intros Hq. apply Hex in Hq.
    assert (E : get_user_extra_limit w' user_id key = held w info user_id).
    { unfold get_user_extra_limit. rewrite (L2 key info Hused Hq Hinfo). reflexivity. }
    split; [exact E|]. unfold total_allowance. rewrite E. lia.
  - intros Hq.
    assert (E : exhausted w user_id key = false).
    { apply not_true_is_false. intros X. apply Hex in X. lia. }
    split; [apply L1; right; right; exact E|].
    destruct (S key Hused E) as (info' & Hi & Hs).
    rewrite Hinfo in Hi. injection Hi as <-. exact Hs.
  - exact F.
  - intros u k Hu. apply L1. left. exact Hu.
  - intros k i Hk Hz. apply L1. right. left. intros Hin.
    apply used_types_elem in Hin as (i' & Hi' & Hpos).
    rewrite Hk in Hi'. injection Hi' as <-. lia.
Qed.

Lemma unlock_effect_witness :
  let info := mkBase "Max" "base_max.csv" 35 in
  let w' := (on_clear_command world_taken 7).1 in
  get_user_extra_limit w' 7 "max" = 35 /\ total_allowance w' "max" info 7 = 70.
Proof.
  destruct (unlock_effect world_taken 7 "max" (mkBase "Max" "base_max.csv" 35))
    as (_ & H & _).
  - reflexivity.
  - vm_compute. reflexivity.
  - apply H. vm_compute. discriminate.
Defined.

(** ** What one operation does to the pool files *)

Section Steps.

Lemma columns_pad4 row : columns (pad4 row) = columns row.
Proof. unfold columns. rewrite !field_pad4. reflexivity. Qed.

Lemma allocate_world w base_key user_id username now w' res :
  allocate_for_user w base_key user_id username now = Some (w', res) ->
  w' = w \/
  exists info,
    base_info base_key = Some info /\
    held w info user_id < total_allowance w base_key info user_id /\
    w' = _write_csv w (csv info)
           (fst (_assign_records_csv (_read_csv w (csv info))
                   (total_allowance w base_key info user_id - held w info user_id)
                   user_id username now)).
Proof.
  intros H. destruct (base_info base_key) as [info|] eqn:Hinfo.
  2:{ unfold allocate_for_user in H. rewrite Hinfo in H. discriminate H. }
  destruct (Z_le_gt_dec (total_allowance w base_key info user_id) (held w info user_id))
    as [Hq|Hq].
  { rewrite (allocate_already_got _ _ _ username now _ Hinfo Hq) in H.
    injection H as <- _. left. reflexivity. }
  apply Z.gt_lt in Hq.
  destruct (Z_lt_ge_dec (count_if is_free (_read_csv w (csv info)))
              (total_allowance w base_key info user_id - held w info user_id))
    as [Hf|Hf].
  { rewrite (allocate_not_enough _ _ _ username now _ Hinfo Hq Hf) in H.
    injection H as <- _. left. reflexivity. }
  apply Z.ge_le in Hf.
  rewrite (allocate_scan _ _ _ username now _ Hinfo Hq Hf) in H.
  destruct (snd (_assign_records_csv _ _ _ _ _)) as [|v vs].
  - injection H as <- _. left. reflexivity.
  - injection H as <- _. right. exists info. repeat split; assumption.
Qed.

Lemma assign_rows_kept rows count user_id username now i row :
  rows !! i = Some row -> truthy (field 1 row) = true ->
  exists row',
    fst (_assign_records_csv rows count user_id username now) !! i = Some row' /\
    columns row' = columns row.
Proof.
  intros Hi Hc. destruct rows as [|header rest]; [discriminate Hi|].
  rewrite assign_records_csv_spec. cbn [fst].
  destruct i as [|i]; simpl in Hi.
  - injection Hi as ->. exists row. split; reflexivity.
  - destruct (scan_rows count user_id username now rest [] i row Hi)
      as (row' & Hrow' & [->|[->|[Ha _]]]).
    + exists row. split; [exact Hrow' | reflexivity].
    + exists (pad4 row). split; [exact Hrow' | apply columns_pad4].
    + apply andb_true_iff in Ha as [Ha _]. unfold unclaimed in Ha.
      rewrite Hc in Ha. discriminate Ha.
Qed.

Lemma assign_count_self rows count user_id username now :
  _count_user_records (fst (_assign_records_csv rows count user_id username now)) user_id
  = _count_user_records rows user_id
    + Z.of_nat (List.length (snd (_assign_records_csv rows count user_id username now))).
Proof.
  destruct rows as [|header rest]; [reflexivity|].
  rewrite assign_records_csv_spec, !count_user_records_spec. cbn [fst snd tail].
  rewrite scan_count_self. simpl List.length. lia.
Qed.

Lemma assign_count_other rows count user_id username now v :
  v <> user_id ->
  _count_user_records (fst (_assign_records_csv rows count user_id username now)) v
  = _count_user_records rows v.
Proof.
  intros Hv. destruct rows as [|header rest]; [reflexivity|].
  rewrite assign_records_csv_spec, !count_user_records_spec. cbn [fst tail].
  apply scan_count_other, Hv.
Qed.

Lemma assign_taken_le rows count user_id username now :
  0 <= count ->
  Z.of_nat (List.length (snd (_assign_records_csv rows count user_id username now))) <= count.
Proof.
  intros H. rewrite assign_records_csv_taken, length_take. lia.
Qed.

Lemma count_new_rows user_id (cs : list string) :
  count_if (counts_for user_id) (new_row <$> cs) = 0.
Proof.
  induction cs as [|c cs IH]; [reflexivity|].
  rewrite fmap_cons, count_if_cons, IH. reflexivity.
Qed.

Lemma count_after_append rows user_id (cs : list string) :
  _count_user_records (rows ++ (new_row <$> cs)) user_id = _count_user_records rows user_id.
Proof.
  rewrite !count_user_records_spec. destruct rows as [|header rest].
  - simpl app. simpl (tail []). rewrite count_if_nil.
    pose proof (count_if_tail_le (counts_for user_id) (new_row <$> cs)) as H1.
    pose proof (count_if_nonneg (counts_for user_id) (tail (new_row <$> cs))) as H2.
    rewrite count_new_rows in H1. lia.
  - simpl. rewrite count_if_app, count_new_rows. lia.
Qed.

Lemma import_held w path new_values info user_id :
  held (fst (_add_new_values w path new_values)) info user_id = held w info user_id.
Proof.
  unfold held. destruct (decide (path = csv info)) as [->|Hp].
  - rewrite import_read. apply count_after_append.
  - rewrite import_read_other by exact Hp. reflexivity.
Qed.

(** A claimed row keeps its place and its four columns through any one
    operation. *)
Lemma step_keeps_claimed w o path i row :
  _read_csv w path !! i = Some row -> truthy (field 1 row) = true ->
  exists row', _read_csv (run_op w o) path !! i = Some row' /\ columns row' = columns row.
Proof.
  intros Hi Hc.
  assert (Same : exists row', _read_csv w path !! i = Some row' /\ columns row' = columns row)
    by (exists row; split; [exact Hi | reflexivity]).
  destruct o as [k u uname now | k vals | u | u k v]; simpl.
  - destruct (allocate_for_user w k u uname now) as [[w' res]|] eqn:E; [|exact Same].
    apply allocate_world in E as [->|(info & Hinfo & _ & ->)]; [exact Same|].
    destruct (decide (csv info = path)) as [<-|Hp].
    + rewrite read_write_same. apply assign_rows_kept; assumption.
    + rewrite read_write_other by exact Hp. exact Same.
  - destruct (base_info k) as [info|]; [|exact Same].
    destruct (decide (csv info = path)) as [<-|Hp].
    + rewrite import_read. exists row. split; [|reflexivity].
      apply lookup_app_l_Some, Hi.
    + rewrite import_read_other by exact Hp. exact Same.
  - destruct (on_clear_command_fold w u) as (F & _).
    unfold _read_csv in *. rewrite F. exact Same.
  - exact Same.
Qed.

End Steps.

(** C3. Through any sequence of operations, a row whose [claimed_by]
    column is not empty stays at its position with the same value,
    identity, label and timestamp: [allocate_for_user] writes the claim
    columns of unclaimed rows only, and an import leaves every row it
    finds, claimed or not, exactly as it is. *)
Theorem claimed_rows_kept w ops path i row :
  _read_csv w path !! i = Some row ->
  truthy (field 1 row) = true ->
  (exists row',
     _read_csv (run_ops w ops) path !! i = Some row' /\ columns row' = columns row) /\
  (forall key info new_values,
     base_info key = Some info -> path = csv info ->
     _read_csv (run_op w (OpImport key new_values)) path !! i = Some row).
Proof.
  intros Hi Hc. split.
  - revert w row Hi Hc. induction ops as [|o ops IH]; intros w row Hi Hc.
    + exists row. split; [exact Hi | reflexivity].
    + destruct (step_keeps_claimed w o path i row Hi Hc) as (row1 & H1 & C1).
      assert (Hc1 : truthy (field 1 row1) = true).
      { unfold columns in C1. injection C1 as _ E _ _. rewrite E. exact Hc. }
      destruct (IH (run_op w o) row1 H1 Hc1) as (row' & H' & C').
      exists row'. split; [exact H' | congruence].
  - intros key info new_values Hk ->. simpl. rewrite Hk, import_read.
    apply lookup_app_l_Some, Hi.
Qed.

Lemma claimed_rows_kept_witness :
  exists row',
    _read_csv (run_ops world_taken
                 [OpImport "max" [CStr "new"]; OpUnlock 7; OpAllocate "max" 7 "bob" stamp;
                  OpAllocate "max" 8 "eve" stamp])
              "base_max.csv" !! 3%nat = Some row' /\
    columns row' = ("3", "7", "bob", stamp).
Proof.
  destruct (claimed_rows_kept world_taken
              [OpImport "max" [CStr "new"]; OpUnlock 7; OpAllocate "max" 7 "bob" stamp;
               OpAllocate "max" 8 "eve" stamp]
              "base_max.csv" 3%nat ["3"; "7"; "bob"; stamp]) as [H _].
  - vm_compute. reflexivity.
  - reflexivity.
  - exact H.
Defined.

(** ** The quota invariant *)

Section Quota.

Lemma quota_ok_empty : quota_ok empty_world.
Proof.
  intros key info u Hk. unfold held, total_allowance, get_user_extra_limit, _read_csv.
  simpl. rewrite !lookup_empty. simpl.
  pose proof (base_limit_pos _ _ Hk). unfold _count_user_records. simpl. lia.
Qed.

Lemma allocate_keeps_quota w base_key user_id username now :
  quota_ok w -> quota_ok (run_op w (OpAllocate base_key user_id username now)).
Proof.
  intros Hq. simpl.
  destruct (allocate_for_user w base_key user_id username now) as [[w' res]|] eqn:E;
    [|exact Hq].
  apply allocate_world in E as [->|(info & Hinfo & Hlt & ->)]; [exact Hq|].
  intros key' info' u' Hk'.
  change (total_allowance (_write_csv w (csv info) _) key' info' u')
    with (total_allowance w key' info' u').
  unfold held. destruct (decide (csv info = csv info')) as [Heq|Hne].
  - destruct (base_csv_inj _ _ _ _ Hinfo Hk' Heq) as [<- <-].
    rewrite read_write_same.
    destruct (decide (u' = user_id)) as [->|Hu].
    + rewrite assign_count_self.
      pose proof (assign_taken_le (_read_csv w (csv info))
                    (total_allowance w base_key info user_id - held w info user_id)
                    user_id username now) as Hle.
      unfold held in *. lia.
    + rewrite assign_count_other by exact Hu. apply (Hq _ _ _ Hk').
  - rewrite read_write_other by exact Hne. apply (Hq _ _ _ Hk').
Qed.

Lemma import_keeps_quota w base_key new_values :
  quota_ok w -> quota_ok (run_op w (OpImport base_key new_values)).
Proof.
  intros Hq. simpl. destruct (base_info base_key) as [info|]; [|exact Hq].
  intros key' info' u' Hk'. rewrite import_held.
  unfold total_allowance, get_user_extra_limit. rewrite import_limits.
  apply (Hq _ _ _ Hk').
Qed.

Lemma unlock_keeps_quota w user_id :
  quota_ok w -> quota_ok (run_op w (OpUnlock user_id)).
Proof.
  intros Hq. simpl.
  destruct (on_clear_command_fold w user_id) as (F & _ & _ & _ & L1 & L2).
  intros key' info' u' Hk'.
  rewrite (held_ext u' _ w info' F).
  unfold total_allowance, get_user_extra_limit.
  destruct (decide (u' = user_id)) as [->|Hu].
  - destruct (decide (key' ∈ get_user_used_types w user_id)) as [Hin|Hin].
    + destruct (exhausted w user_id key') eqn:X.
      * rewrite (L2 key' info' Hin X Hk'). simpl.
        pose proof (base_limit_pos _ _ Hk'). lia.
      * rewrite L1 by (right; right; exact X). apply (Hq _ _ _ Hk').
    + rewrite L1 by (right; left; exact Hin). apply (Hq _ _ _ Hk').
  - rewrite L1 by (left; exact Hu). apply (Hq _ _ _ Hk').
Qed.

Lemma set_extra_keeps_quota w user_id base_type value :
  quota_ok w -> admissible w (OpSetExtra user_id base_type value) ->
  quota_ok (run_op w (OpSetExtra user_id base_type value)).
Proof.
  intros Hq Ha key' info' u' Hk'. simpl.
  change (held (set_user_extra_limit w user_id base_type value) info' u')
    with (held w info' u').
  unfold total_allowance, get_user_extra_limit, set_user_extra_limit. simpl.
  destruct (decide ((user_id, base_type) = (u', key'))) as [[= -> ->]|Hne].
  - rewrite lookup_insert_eq. simpl. apply (Ha _ Hk').
  - rewrite lookup_insert_ne by exact Hne. apply (Hq _ _ _ Hk').
Qed.

Lemma step_keeps_quota w o : quota_ok w -> admissible w o -> quota_ok (run_op w o).
Proof.
  intros Hq Ha. destruct o.
  - apply allocate_keeps_quota, Hq.
  - apply import_keeps_quota, Hq.
  - apply unlock_keeps_quota, Hq.
  - apply set_extra_keeps_quota; assumption.
Qed.

End Quota.

(** C2 (as amended). Starting from a world in which every identity holds,
    in every pool, at most [base_limit + extra_limit] records, this stays
    so after any sequence of allocations, imports, unlocks and direct
    settings of an extra limit, provided each direct setting for a pool of
    [BASE_TYPES] gives a value [v] with [held <= base_limit + v] at the
    moment it is made. *)
Theorem quota_preserved w ops :
  quota_ok w -> admissible_run w ops -> quota_ok (run_ops w ops).
Proof.
  revert w. induction ops as [|o ops IH]; intros w Hq Ha; [exact Hq|].
  destruct Ha as [Ha Hrest]. simpl. apply IH; [|exact Hrest].
  apply step_keeps_quota; assumption.
Qed.

Lemma quota_preserved_witness : quota_ok (run_ops empty_world ops_raise).
Proof.
  apply (quota_preserved empty_world ops_raise).
  - apply quota_ok_empty.
  - unfold ops_raise. cbn [admissible_run admissible].
    repeat split. intros info [= <-]. vm_compute. discriminate.
Defined.

(** C2 (as stated) fails: the empty world is within quota, and after the
    five operations of [ops_reset], the last one a direct setting of the
    extra limit to 0, identity 7 holds 70 records of [max] against an
    allowance of 35. *)
Lemma quota_broken_by_set_extra :
  quota_ok empty_world /\
  exists info,
    base_info "max" = Some info /\
    held (run_ops empty_world ops_reset) info 7 = 70 /\
    total_allowance (run_ops empty_world ops_reset) "max" info 7 = 35.
Proof.
  split; [apply quota_ok_empty|].
  exists (mkBase "Max" "base_max.csv" 35).
  repeat split; vm_compute; reflexivity.
Qed.

(** ** Importing the same batch again *)

Section Reimport.

Implicit Types (existing : gset string).







End Reimport.

(** ** The header line is never lost *)

Lemma assign_nonempty rows count user_id username now :
  rows <> [] -> fst (_assign_records_csv rows count user_id username now) <> [].
Proof.
  intros H. destruct rows as [|header rest]; [congruence|].
  rewrite assign_records_csv_spec. discriminate.
Qed.

Lemma headed_files w1 w2 : files w1 = files w2 -> headed w2 -> headed w1.
Proof. intros F H path rows. rewrite F. apply H. Qed.

Lemma headed_step w o : headed w -> headed (run_op w o).
Proof.
  intros H. destruct o as [k u uname now | k vals | u | u k v]; simpl.
  - destruct (allocate_for_user w k u uname now) as [[w' res]|] eqn:E; [|exact H].
    apply allocate_world in E as [->|(info & _ & _ & ->)]; [exact H|].
    apply headed_write; [exact H|]. apply assign_nonempty, headed_read, H.
  - destruct (base_info k); [apply headed_import, H | exact H].
  - destruct (on_clear_command_fold w u) as (F & _). apply (headed_files _ _ F H).
  - exact H.
Qed.

Lemma headed_run w ops : headed w -> headed (run_ops w ops).
Proof.
  revert w. induction ops as [|o ops IH]; intros w H; [exact H|].
  simpl. apply IH, headed_step, H.
Qed.

(** ** Worked examples *)

Example strip_lower_ex :
  strip "  = a b  " = "= a b" /\ lower "FoO-9z" = "foo-9z" /\
  clean_value (CStr " =x ") = Some "x" /\ clean_value (CStr " = ") = None /\
  clean_value (CFloatInt 79001234567) = Some "79001234567".
Proof. repeat split; reflexivity. Qed.

Example py_int_ex :
  py_int " +1_000 " = Some 1000 /\ py_int "007" = Some 7 /\
  py_int "-42" = Some (-42) /\ py_int "ID" = None /\ py_int "" = None /\
  py_int "1__0" = None /\ py_int "_1" = None /\ py_int "1_" = None /\
  py_int "- 1" = None.
Proof. repeat split; reflexivity. Qed.

Example strptime_ex :
  strptime stamp = Some (mkDT 2024 5 17 9 30 0 0) /\
  strptime "2023.02.29 10:05:09" = None /\
  strptime "2024.2. 9   1:5:9" = Some (mkDT 2024 2 9 1 5 9 0) /\
  strptime "2024.02.29 10:05:60" = None /\
  strptime "2024.02.29 10:05:09 " = None /\
  toordinal (mkDT 2024 2 29 0 0 0 0) = 738945.
Proof. repeat split; reflexivity. Qed.

(** A fresh identity takes the first 35 of 40 records of [max] in storage
    order; a second call is refused with [already_got], a call by another
    identity with [not_enough], and both leave the world alone. *)
Example allocate_ex :
  option_map snd (allocate_for_user world_full "max" 7 "bob" stamp)
    = Some (map (fun n => py_str (Z.of_nat n)) (seq 1 35), None) /\
  allocate_for_user world_taken "max" 7 "bob" stamp
    = Some (world_taken, ([], Some already_got)) /\
  allocate_for_user world_taken "max" 8 "eve" stamp
    = Some (world_taken, ([], Some not_enough)) /\
  allocate_for_user world_taken "min" 8 "eve" stamp = None.
Proof. repeat split; vm_compute; reflexivity. Qed.

(** The records claimed at [stamp] fall in every window of [noon], a day
    and a few hours later they are out of the day window only. *)
Example stats_ex :
  pool_stats world_taken noon (mkBase "Max" "base_max.csv" 35)
    = mkStats "Max" 5 40 0 35 35 /\
  pool_stats world_taken (mkDT 2024 5 18 9 30 0 0) (mkBase "Max" "base_max.csv" 35)
    = mkStats "Max" 5 40 35 35 35.
Proof. split; vm_compute; reflexivity. Qed.

(** * Further properties *)

(** ** The scan as a relation *)

Section ScanRelation.

Variables (count user_id : Z) (username now : string).

Lemma scanned_refl (rest : list (list string)) : Scanned user_id username now rest rest [].
Proof.
  induction rest as [|row rest IH]; [constructor|].
  apply scanned_keep; [left; reflexivity | exact IH].
Qed.

Lemma scan_scanned rest taken :
  exists values,
    snd (assign_loop count user_id username now rest taken) = taken ++ values /\
    Scanned user_id username now rest
      (fst (assign_loop count user_id username now rest taken)) values.
Proof.
  revert taken. induction rest as [|row rest IH]; intros taken.
  - exists []. simpl. rewrite app_nil_r. split; [reflexivity | constructor].
  - rewrite scan_cons. destruct (count <=? Z.of_nat (List.length taken)).
    + exists []. simpl. rewrite app_nil_r. split; [reflexivity | apply scanned_refl].
    + destruct (assignable row) eqn:E; simpl.
      * destruct (IH (taken ++ [handout row])) as (values & Hs & Hr).
        exists (handout row :: values). split.
        -- rewrite Hs, <- app_assoc. reflexivity.
        -- apply scanned_claim; assumption.
      * destruct (IH taken) as (values & Hs & Hr).
        exists values. split; [exact Hs|].
        apply scanned_keep; [right; reflexivity | exact Hr].
Qed.

(** The records still assignable after a scan are those before it without
    the first ones, as many as the scan was asked for. *)
Lemma scan_avail rest taken :
  avail (fst (assign_loop count user_id username now rest taken)) =
  drop (Z.to_nat (count - Z.of_nat (List.length taken))) (avail rest).
Proof.
  revert taken. induction rest as [|row rest IH]; intros taken.
  - simpl. change (avail []) with (@nil string). rewrite drop_nil. reflexivity.
  - rewrite scan_cons. destruct (count <=? Z.of_nat (List.length taken)) eqn:Hb.
    + apply Z.leb_le in Hb. simpl. replace (Z.to_nat _) with 0%nat by lia. reflexivity.
    + apply Z.leb_gt in Hb. rewrite (avail_cons row rest).
      destruct (assignable row) eqn:E; simpl.
      * rewrite avail_cons.
        assert (Hc : assignable (claim user_id username now (pad4 row)) = false).
        { unfold assignable, unclaimed.
          rewrite field_claim_1 by apply length_pad4. rewrite py_str_truthy. reflexivity. }
        rewrite Hc, IH, length_app. simpl List.length.
        replace (Z.to_nat (count - Z.of_nat (List.length taken)))
          with (S (Z.to_nat (count - Z.of_nat (List.length taken + 1)))) by lia.
        reflexivity.
      * rewrite avail_cons.
        assert (Hp : assignable (pad4 row) = false).
        { unfold assignable. rewrite unclaimed_pad4, handout_pad4. exact E. }
        rewrite Hp. apply IH.
Qed.

End ScanRelation.

(** ** A successful allocation, taken apart *)

Lemma allocate_success_inv w base_key user_id username now w' vals :
  allocate_for_user w base_key user_id username now = Some (w', (vals, None)) ->
  exists info header rest rest',
    base_info base_key = Some info /\
    held w info user_id < total_allowance w base_key info user_id /\
    _read_csv w (csv info) = header :: rest /\
    _read_csv w' (csv info) = header :: rest' /\
    Scanned user_id username now rest rest' vals /\
    vals = take (Z.to_nat (total_allowance w base_key info user_id - held w info user_id))
             (avail rest) /\
    avail rest' = drop (Z.to_nat (total_allowance w base_key info user_id
                                  - held w info user_id)) (avail rest) /\
    limits w' = limits w /\
    (forall path, path <> csv info -> files w' !! path = files w !! path) /\
    (vals = [] -> w' = w) /\
    (vals <> [] -> w' = _write_csv w (csv info) (header :: rest')).
Proof.
  intros H. destruct (base_info base_key) as [info|] eqn:Hinfo.
  2:{ unfold allocate_for_user in H. rewrite Hinfo in H. discriminate H. }
  destruct (Z_le_gt_dec (total_allowance w base_key info user_id) (held w info user_id))
    as [Hq|Hq].
  { rewrite (allocate_already_got _ _ _ username now _ Hinfo Hq) in H. discriminate H. }
  apply Z.gt_lt in Hq.
  destruct (Z_lt_ge_dec (count_if is_free (_read_csv w (csv info)))
              (total_allowance w base_key info user_id - held w info user_id))
    as [Hf|Hf].
  { rewrite (allocate_not_enough _ _ _ username now _ Hinfo Hq Hf) in H. discriminate H. }
  apply Z.ge_le in Hf.
  rewrite (allocate_scan _ _ _ username now _ Hinfo Hq Hf) in H.
  destruct (_read_csv w (csv info)) as [|header rest] eqn:Hrows.
  { rewrite count_if_nil in Hf. lia. }
  rewrite assign_records_csv_spec in H. cbn [fst snd] in H.
  set (n := total_allowance w base_key info user_id - held w info user_id) in *.
  pose proof (scan_taken n user_id username now rest []) as Ht.
  pose proof (scan_avail n user_id username now rest []) as Ha.
  destruct (scan_scanned n user_id username now rest []) as (values & Hs & Hr).
  simpl in Ht, Ha, Hs. rewrite Z.sub_0_r in Ht, Ha.
  destruct (snd (assign_loop n user_id username now rest [])) as [|v vs] eqn:Hsnd.
  - injection H as <- <-. exists info, header, rest, rest.
    split; [reflexivity|]. split; [exact Hq|].
    split; [first [reflexivity | exact Hrows]|].
    split; [first [reflexivity | exact Hrows]|].
    split; [apply scanned_refl|]. split; [exact Ht|].
    split.
    { assert (Hav : avail rest = []).
      { destruct (avail rest) as [|a l]; [reflexivity|].
        replace (Z.to_nat n) with (S (Z.to_nat (n - 1))) in Ht by lia.
        discriminate Ht. }
      rewrite Hav, drop_nil. reflexivity. }
    split; [reflexivity|]. split; [reflexivity|]. split; [reflexivity | congruence].
  - injection H as <- <-.
    exists info, header, rest, (fst (assign_loop n user_id username now rest [])).
    split; [reflexivity|]. split; [exact Hq|].
    split; [first [reflexivity | exact Hrows]|].
    split; [apply read_write_same|]. split; [rewrite Hs; exact Hr|].
    split; [exact Ht|]. split; [exact Ha|]. split; [reflexivity|].
    split.
    { intros path Hp. simpl. apply lookup_insert_ne. congruence. }
    split; [discriminate | reflexivity].
Qed.

(** ** What a scanned list keeps and what it changes *)

Section ScannedFacts.

Variables (user_id : Z) (username now : string).

Lemma py_str_inj a b : py_str a = py_str b -> a = b.
Proof.
  intros H. apply (f_equal py_int) in H. rewrite !py_int_py_str in H.
  injection H as ->. reflexivity.
Qed.

Lemma field_claim_2 row :
  (4 <= List.length row)%nat -> field 2 (claim user_id username now row) = username.
Proof.
  intros H. unfold field, claim.
  rewrite list_lookup_insert_ne by lia.
  rewrite list_lookup_insert_eq by (rewrite length_insert; lia). reflexivity.
Qed.

Lemma field_claim_3 row :
  (4 <= List.length row)%nat -> field 3 (claim user_id username now row) = now.
Proof.
  intros H. unfold field, claim.
  rewrite list_lookup_insert_eq by (rewrite !length_insert; lia). reflexivity.
Qed.

Lemma length_claim row : List.length (claim user_id username now row) = List.length row.
Proof. unfold claim. rewrite !length_insert. reflexivity. Qed.

Lemma columns_claim row :
  columns (claim user_id username now (pad4 row)) =
  (field 0 row, py_str user_id, username, now).
Proof.
  unfold columns.
  rewrite field_claim_0, field_claim_1, field_claim_2, field_claim_3
    by apply length_pad4.
  rewrite field_pad4. reflexivity.
Qed.

Lemma unclaimed_claim row : unclaimed (claim user_id username now (pad4 row)) = false.
Proof.
  unfold unclaimed. rewrite field_claim_1 by apply length_pad4.
  rewrite py_str_truthy. reflexivity.
Qed.

Lemma user_contact_pad4 v row : user_contact v (pad4 row) = user_contact v row.
Proof.
  unfold user_contact. rewrite field_pad4, handout_pad4.
  pose proof (length_pad4 row) as L4.
  replace (2 <=? List.length (pad4 row))%nat with true
    by (symmetry; apply Nat.leb_le; lia).
  destruct (2 <=? List.length row)%nat eqn:L; [reflexivity|].
  apply Nat.leb_gt in L. simpl.
  replace (String.eqb (field 1 row) (py_str v)) with false; [reflexivity|].
  symmetry. apply String.eqb_neq. unfold field.
  rewrite (lookup_ge_None_2 row 1%nat) by lia. simpl.
  pose proof (py_str_truthy v) as T. intros E. rewrite <- E in T. discriminate T.
Qed.

Lemma user_contact_unclaimed v row : unclaimed row = true -> user_contact v row = None.
Proof.
  intros H. unfold user_contact.
  replace (String.eqb (field 1 row) (py_str v)) with false;
    [rewrite andb_false_r; reflexivity|].
  symmetry. apply String.eqb_neq. intros E. unfold unclaimed in H.
  rewrite E, py_str_truthy in H. discriminate H.
Qed.

Lemma user_contact_claim v row :
  assignable row = true ->
  user_contact v (claim user_id username now (pad4 row)) =
  if decide (v = user_id) then Some (handout row) else None.
Proof.
  intros Ha. unfold user_contact.
  rewrite length_claim, field_claim_1 by apply length_pad4.
  pose proof (length_pad4 row) as L4.
  replace (2 <=? List.length (pad4 row))%nat with true
    by (symmetry; apply Nat.leb_le; lia).
  simpl. destruct (decide (v = user_id)) as [->|Hv].
  - rewrite String.eqb_refl. unfold handout at 1 2.
    rewrite field_claim_0, field_pad4. fold (handout row).
    apply andb_true_iff in Ha as [_ ->]. reflexivity.
  - replace (String.eqb (py_str user_id) (py_str v)) with false; [reflexivity|].
    symmetry. apply String.eqb_neq. intros E. apply py_str_inj in E. congruence.
Qed.

Lemma claimed_at_pad4 row : claimed_at (pad4 row) = claimed_at row.
Proof.
  unfold claimed_at, pad4. destruct (List.length row <? 4)%nat eqn:L; [|reflexivity].
  apply Nat.ltb_lt in L. rewrite lookup_app.
  destruct (row !! 3%nat) as [s|] eqn:E.
  - apply lookup_lt_Some in E. lia.
  - destruct (replicate _ _ !! _) as [y|] eqn:R; [|reflexivity].
    apply lookup_replicate in R as [-> _]. reflexivity.
Qed.

Lemma claimed_at_claim row :
  claimed_at (claim user_id username now (pad4 row)) = strptime now.
Proof.
  unfold claimed_at, claim.
  rewrite list_lookup_insert_eq; [reflexivity|].
  rewrite !length_insert. pose proof (length_pad4 row). lia.
Qed.

Implicit Types (l : list (list string)) (values : list string).

Lemma scanned_length l l' values :
  Scanned user_id username now l l' values -> List.length l' = List.length l.
Proof. intros Hs. induction Hs; simpl; congruence. Qed.

Lemma scanned_values_truthy l l' values :
  Scanned user_id username now l l' values -> Forall (fun v => truthy v = true) values.
Proof.
  intros Hs. induction Hs; [constructor | assumption |].
  constructor; [|assumption].
  match goal with H : assignable _ = true |- _ => apply andb_true_iff in H as [_ H]; exact H end.
Qed.

Lemma scanned_count l l' values v :
  Scanned user_id username now l l' values ->
  count_if (counts_for v) l' =
  count_if (counts_for v) l
  + (if decide (v = user_id) then Z.of_nat (List.length values) else 0).
Proof.
  intros Hs. induction Hs as [|row row' rest rest' vs Hk _ IH|row rest rest' vs Ha _ IH].
  - rewrite count_if_nil. destruct (decide _); reflexivity.
  - rewrite !count_if_cons, IH.
    destruct Hk as [->| ->]; [|rewrite counts_for_pad4]; lia.
  - rewrite !count_if_cons, IH.
    rewrite counts_for_claim by apply length_pad4.
    apply andb_true_iff in Ha as [Ha _]. rewrite (counts_for_unclaimed _ _ Ha).
    simpl List.length. destruct (decide (v = user_id)) as [->|Hv].
    + rewrite Z.eqb_refl. lia.
    + replace (user_id =? v) with false by (symmetry; apply Z.eqb_neq; congruence). lia.
Qed.

Lemma scanned_unclaimed l l' values :
  Scanned user_id username now l l' values ->
  count_if unclaimed l' = count_if unclaimed l - Z.of_nat (List.length values).
Proof.
  intros Hs. induction Hs as [|row row' rest rest' vs Hk _ IH|row rest rest' vs Ha _ IH].
  - rewrite count_if_nil. reflexivity.
  - rewrite !count_if_cons, IH.
    destruct Hk as [->| ->]; [|rewrite unclaimed_pad4]; lia.
  - rewrite !count_if_cons, IH, unclaimed_claim.
    apply andb_true_iff in Ha as [-> _]. simpl List.length. lia.
Qed.

Lemma scanned_columns l l' values i row :
  Scanned user_id username now l l' values ->
  l !! i = Some row ->
  exists row',
    l' !! i = Some row' /\
    (columns row' = columns row \/
     (assignable row = true /\ columns row' = (field 0 row, py_str user_id, username, now))).
Proof.
  intros Hs. revert i.
  induction Hs as [|r r' rest rest' vs Hk _ IH|r rest rest' vs Ha _ IH]; intros i Hi.
  - discriminate Hi.
  - destruct i as [|i]; simpl in *.
    + injection Hi as ->. exists r'. split; [reflexivity|]. left.
      destruct Hk as [->| ->]; [reflexivity | apply columns_pad4].
    + apply IH, Hi.
  - destruct i as [|i]; simpl in *.
    + injection Hi as ->. eexists. split; [reflexivity|]. right.
      split; [exact Ha | apply columns_claim].
    + apply IH, Hi.
Qed.

Lemma scanned_contacts l l' values v :
  Scanned user_id username now l l' values ->
  omap (user_contact v) l' ≡ₚ
  omap (user_contact v) l ++ (if decide (v = user_id) then values else []).
Proof.
  intros Hs. induction Hs as [|row row' rest rest' vs Hk _ IH|row rest rest' vs Ha _ IH].
  - destruct (decide _); reflexivity.
  - simpl.
    assert (E : user_contact v row' = user_contact v row)
      by (destruct Hk as [->| ->]; [reflexivity | apply user_contact_pad4]).
    rewrite E. destruct (user_contact v row); simpl; rewrite IH; reflexivity.
  - simpl. rewrite (user_contact_claim v row Ha).
    apply andb_true_iff in Ha as [Ha _]. rewrite (user_contact_unclaimed v row Ha).
    destruct (decide (v = user_id)); rewrite IH.
    + apply Permutation_middle.
    + reflexivity.
Qed.

Lemma scanned_contacts_other l l' values v :
  Scanned user_id username now l l' values -> v <> user_id ->
  omap (user_contact v) l' = omap (user_contact v) l.
Proof.
  intros Hs Hv.
  induction Hs as [|row row' rest rest' vs Hk _ IH|row rest rest' vs Ha _ IH].
  - reflexivity.
  - cbn [omap list_omap].
    assert (E : user_contact v row' = user_contact v row)
      by (destruct Hk as [->| ->]; [reflexivity | apply user_contact_pad4]).
    rewrite E, IH. reflexivity.
  - cbn [omap list_omap]. rewrite (user_contact_claim v row Ha), decide_False by exact Hv.
    apply andb_true_iff in Ha as [Ha _]. rewrite (user_contact_unclaimed v row Ha).
    exact IH.
Qed.


Lemma scanned_consistent l l' values :
  Scanned user_id username now l l' values ->
  (forall row, row ∈ l -> unclaimed row = true -> field 2 row = "" /\ field 3 row = "") ->
  forall row, row ∈ l' -> unclaimed row = true -> field 2 row = "" /\ field 3 row = "".
Proof.
  intros Hs. induction Hs as [|r r' rest rest' vs Hk _ IH|r rest rest' vs Ha _ IH]; intros H row Hin Hu.
  - inversion Hin.
  - apply elem_of_cons in Hin as [->|Hin].
    + destruct Hk as [->| ->].
      * apply H; [left | exact Hu].
      * rewrite !field_pad4. rewrite unclaimed_pad4 in Hu. apply H; [left | exact Hu].
    + apply IH; [|exact Hin | exact Hu]. intros x Hx. apply H. right. exact Hx.
  - apply elem_of_cons in Hin as [->|Hin].
    + rewrite unclaimed_claim in Hu. discriminate Hu.
    + apply IH; [|exact Hin | exact Hu]. intros x Hx. apply H. right. exact Hx.
Qed.

Lemma scanned_window l l' values dt n :
  Scanned user_id username now l l' values ->
  (forall row, row ∈ l -> unclaimed row = true -> field 3 row = "") ->
  count_if (claimed_within dt n) l' =
  count_if (claimed_within dt n) l
  + (if stamp_within dt n now then Z.of_nat (List.length values) else 0).
Proof.
  intros Hs. induction Hs as [|r r' rest rest' vs Hk _ IH|r rest rest' vs Ha _ IH]; intros H.
  - rewrite count_if_nil. destruct (stamp_within dt n now); reflexivity.
  - rewrite !count_if_cons, IH by (intros x Hx; apply H; right; exact Hx).
    assert (E : claimed_within dt n r' = claimed_within dt n r).
    { destruct Hk as [->| ->]; [reflexivity|].
      unfold claimed_within. rewrite claimed_at_pad4. reflexivity. }
    rewrite E. lia.
  - rewrite !count_if_cons, IH by (intros x Hx; apply H; right; exact Hx).
    apply andb_true_iff in Ha as [Ha _].
    assert (E0 : claimed_within dt n r = false).
    { unfold claimed_within, claimed_at. pose proof (H r ltac:(left) Ha) as F.
      unfold field in F. destruct (r !! 3%nat) as [s|]; [|reflexivity].
      simpl in F. subst s. reflexivity. }
    assert (E1 : claimed_within dt n (claim user_id username now (pad4 r))
                 = stamp_within dt n now).
    { unfold claimed_within, stamp_within. rewrite claimed_at_claim. reflexivity. }
    rewrite E0, E1. simpl List.length.
    destruct (stamp_within dt n now); lia.
Qed.


End ScannedFacts.

(** ** Allocation: effect, order, composition *)

(** X1. A successful [allocate_for_user] gives the identity exactly as
    many records as it returns values, each value non-empty, and nobody
    else any; the pool file keeps its length, and each of its rows either
    keeps its four columns or was unclaimed and now carries the identity,
    the label and the timestamp of the call next to its unchanged value;
    other pool files and the ledger are as before. *)
Theorem allocate_effect w base_key user_id username now w' vals :
  allocate_for_user w base_key user_id username now = Some (w', (vals, None)) ->
  exists info,
    base_info base_key = Some info /\
    (forall v, held w' info v =
               held w info v + (if decide (v = user_id) then Z.of_nat (List.length vals) else 0)) /\
    Forall (fun v => truthy v = true) vals /\
    List.length (_read_csv w' (csv info)) = List.length (_read_csv w (csv info)) /\
    (forall i row, _read_csv w (csv info) !! i = Some row ->
       exists row',
         _read_csv w' (csv info) !! i = Some row' /\
         (columns row' = columns row \/
          (unclaimed row = true /\
           columns row' = (field 0 row, py_str user_id, username, now)))) /\
    (forall path, path <> csv info -> _read_csv w' path = _read_csv w path) /\
    limits w' = limits w.
Proof.
  intros H.
  destruct (allocate_success_inv _ _ _ _ _ _ _ H)
    as (info & header & rest & rest' & Hinfo & _ & Hr & Hr' & Hs & _ & _ & Hl & Hf & _).
  exists info. split; [exact Hinfo|]. split.
  { intros v. unfold held. rewrite !count_user_records_spec, Hr, Hr'. simpl tail.
    apply (scanned_count _ _ _ _ _ _ v Hs). }
  split; [apply (scanned_values_truthy _ _ _ _ _ _ Hs)|]. split.
  { rewrite Hr, Hr'. simpl. f_equal. apply (scanned_length _ _ _ _ _ _ Hs). }
  split.
  { rewrite Hr, Hr'. intros [|i] row Hi; simpl in *.
    - exists row. split; [exact Hi | left; reflexivity].
    - destruct (scanned_columns _ _ _ _ _ _ i row Hs Hi) as (row' & H1 & [H2|[H2 H3]]).
      + exists row'. split; [exact H1 | left; exact H2].
      + exists row'. split; [exact H1|]. right. split; [|exact H3].
        apply andb_true_iff in H2 as [H2 _]. exact H2. }
  split; [|exact Hl].
  intros path Hp. unfold _read_csv. rewrite (Hf path Hp). reflexivity.
Qed.

Lemma allocate_effect_witness :
  held world_taken (mkBase "Max" "base_max.csv" 35) 7 = 35 /\
  held world_taken (mkBase "Max" "base_max.csv" 35) 8 = 0.
Proof.
  destruct (allocate_effect world_full "max" 7 "bob" stamp world_taken taken35)
    as (info & Hinfo & Hheld & _).
  - vm_compute. reflexivity.
  - injection Hinfo as <-. split.
    + rewrite (Hheld 7). vm_compute. reflexivity.
    + rewrite (Hheld 8). vm_compute. reflexivity.
Defined.





(** X4. After a successful [allocate_for_user], the same identity is
    refused with [already_got] on its next call for the pool exactly when
    the first call returned the whole remaining allowance; after a short
    batch the identity may ask again. *)
Theorem allocate_repeat w base_key user_id username now w' vals name' now' :
  allocate_for_user w base_key user_id username now = Some (w', (vals, None)) ->
  exists info,
    base_info base_key = Some info /\
    Z.of_nat (List.length vals)
      <= total_allowance w base_key info user_id - held w info user_id /\
    (allocate_for_user w' base_key user_id name' now' = Some (w', ([], Some already_got))
     <-> Z.of_nat (List.length vals)
         = total_allowance w base_key info user_id - held w info user_id).
Proof.
  intros H.
  destruct (allocate_success_inv _ _ _ _ _ _ _ H)
    as (info & header & rest & rest' & Hinfo & Hq & Hr & Hr' & Hs & Hv & _ & Hl & _).
  exists info. split; [exact Hinfo|].
  assert (Hlen : Z.of_nat (List.length vals)
                 <= total_allowance w base_key info user_id - held w info user_id).
  { rewrite Hv, length_take. lia. }
  split; [exact Hlen|].
  assert (Hheld : held w' info user_id = held w info user_id + Z.of_nat (List.length vals)).
  { unfold held. rewrite !count_user_records_spec, Hr, Hr'. simpl tail.
    rewrite (scanned_count _ _ _ _ _ _ user_id Hs), decide_True by reflexivity.
    reflexivity. }
  assert (Htot : total_allowance w' base_key info user_id
                 = total_allowance w base_key info user_id).
  { unfold total_allowance, get_user_extra_limit. rewrite Hl. reflexivity. }
  split.
  - intros Hag.
    destruct (Z_le_gt_dec (total_allowance w' base_key info user_id) (held w' info user_id))
      as [Hle|Hgt]; [lia|].
    apply Z.gt_lt in Hgt. exfalso.
    destruct (Z_lt_ge_dec (count_if is_free (_read_csv w' (csv info)))
                (total_allowance w' base_key info user_id - held w' info user_id))
      as [Hf|Hf].
    + rewrite (allocate_not_enough _ _ _ name' now' _ Hinfo Hgt Hf) in Hag. discriminate Hag.
    + apply Z.ge_le in Hf.
      rewrite (allocate_scan _ _ _ name' now' _ Hinfo Hgt Hf) in Hag.
      destruct (snd (_assign_records_csv _ _ _ _ _)); discriminate Hag.
  - intros Heq. apply (allocate_already_got _ _ _ name' now' _ Hinfo). lia.
Qed.

Lemma allocate_repeat_witness :
  allocate_for_user world_taken "max" 7 "bob" stamp
  = Some (world_taken, ([], Some already_got)).
Proof.
  destruct (allocate_repeat world_full "max" 7 "bob" stamp world_taken taken35 "bob" stamp)
    as (info & Hinfo & _ & Hiff).
  - vm_compute. reflexivity.
  - injection Hinfo as <-. apply Hiff. vm_compute. reflexivity.
Defined.

(** ** The contacts of an identity *)

Lemma user_contact_counts v row : is_Some (user_contact v row) -> counts_for v row = true.
Proof.
  unfold user_contact. intros [c Hc].
  destruct (2 <=? List.length row)%nat eqn:L; [|discriminate Hc].
  destruct (String.eqb (field 1 row) (py_str v)) eqn:E; [|discriminate Hc].
  apply String.eqb_eq in E. rewrite counts_for_field, E, py_str_truthy, py_int_py_str.
  simpl. apply Z.eqb_refl.
Qed.

Lemma contacts_le_count v (l : list (list string)) :
  Z.of_nat (List.length (omap (user_contact v) l)) <= count_if (counts_for v) l.
Proof.
  induction l as [|row l IH]; [rewrite count_if_nil; simpl; lia|].
  rewrite count_if_cons. cbn [omap list_omap].
  destruct (user_contact v row) as [c|] eqn:E.
  - rewrite (user_contact_counts v row) by (exists c; exact E).
    cbn [List.length]. lia.
  - destruct (counts_for v row); lia.
Qed.

Lemma get_user_contacts_fold w user_id (l : list (string * BaseInfo)) acc :
  fold_left
    (fun result '(key, info) =>
       match pool_contacts w user_id info with
       | [] => result
       | contacts => result ++ [(key, contacts)]
       end) l acc
  = acc ++ omap (fun e : string * BaseInfo =>
                   match pool_contacts w user_id e.2 with
                   | [] => None
                   | contacts => Some (e.1, contacts)
                   end) l.
Proof.
  revert acc. induction l as [|[key info] l IH]; intros acc; simpl.
  - rewrite app_nil_r. reflexivity.
  - rewrite IH. destruct (pool_contacts w user_id info); [reflexivity|].
    rewrite <- app_assoc. reflexivity.
Qed.

(** X5. [get_user_contacts] has an entry for a pool exactly when the
    identity has at least one contact in it, the entry being the contacts
    of that pool in storage order; and an identity never has more
    contacts listed in a pool than [_count_user_records] counts against
    its quota there. *)
Theorem contacts_listed w user_id :
  (forall key contacts,
     (key, contacts) ∈ get_user_contacts w user_id <->
     exists info, base_info key = Some info /\
                  contacts = pool_contacts w user_id info /\ contacts <> []) /\
  (forall info, Z.of_nat (List.length (pool_contacts w user_id info)) <= held w info user_id).
Proof.
  split.
  - intros key contacts. unfold get_user_contacts.
    rewrite get_user_contacts_fold, app_nil_l, list_elem_of_omap. split.
    + intros ([k info] & Hin & He). simpl in He.
      destruct (pool_contacts w user_id info) as [|c cs] eqn:E; [discriminate He|].
      injection He as <- <-. exists info.
      split; [apply base_info_of_elem, Hin|]. split; [symmetry; exact E | discriminate].
    + intros (info & Hk & -> & Hne). exists (key, info).
      split; [apply base_info_elem, Hk|]. simpl.
      destruct (pool_contacts w user_id info); [congruence | reflexivity].
  - intros info. unfold pool_contacts, held. rewrite count_user_records_spec.
    apply contacts_le_count.
Qed.

(** X6. After a successful [allocate_for_user] the contacts of the
    identity in the pool are those it had before together with the values
    just returned (in storage order, hence up to a permutation of that
    list); the contacts of every other identity in the pool, and of
    everybody in the other pools, are the same lists as before. *)
Theorem allocate_contacts w base_key user_id username now w' vals :
  allocate_for_user w base_key user_id username now = Some (w', (vals, None)) ->
  exists info,
    base_info base_key = Some info /\
    pool_contacts w' user_id info ≡ₚ pool_contacts w user_id info ++ vals /\
    (forall v, v <> user_id -> pool_contacts w' v info = pool_contacts w v info) /\
    (forall v info', csv info' <> csv info -> pool_contacts w' v info' = pool_contacts w v info').
Proof.
  intros H.
  destruct (allocate_success_inv _ _ _ _ _ _ _ H)
    as (info & header & rest & rest' & Hinfo & _ & Hr & Hr' & Hs & _ & _ & _ & Hf & _).
  exists info. split; [exact Hinfo|]. unfold pool_contacts. rewrite Hr, Hr'. simpl tail.
  split; [|split].
  - pose proof (scanned_contacts _ _ _ _ _ _ user_id Hs) as P.
    rewrite decide_True in P by reflexivity. exact P.
  - intros v Hv. apply (scanned_contacts_other _ _ _ _ _ _ v Hs Hv).
  - intros v info' Hne. unfold _read_csv. rewrite (Hf (csv info') Hne). reflexivity.
Qed.

Lemma allocate_contacts_witness :
  pool_contacts world_taken 7 (mkBase "Max" "base_max.csv" 35)
  ≡ₚ pool_contacts world_full 7 (mkBase "Max" "base_max.csv" 35) ++ taken35.
Proof.
  destruct (allocate_contacts world_full "max" 7 "bob" stamp world_taken taken35)
    as (info & Hinfo & H & _).
  - vm_compute. reflexivity.
  - injection Hinfo as <-. exact H.
Defined.

(** ** Statistics: bounds, and the effect of an allocation *)

Lemma consistent_read w path : consistent w -> consistent_rows (_read_csv w path).
Proof.
  intros H. unfold _read_csv. destruct (files w !! path) as [rows|] eqn:E.
  - apply (H _ _ E).
  - intros row Hin. inversion Hin.
Qed.

Lemma claimed_within_longer now n m row :
  n <= m -> claimed_within now n row = true -> claimed_within now m row = true.
Proof.
  intros Hnm. unfold claimed_within. destruct (claimed_at row) as [t|]; [|discriminate].
  unfold not_before, micro_of_days. intros H. apply Z.leb_le in H. apply Z.leb_le. lia.
Qed.

Lemma count_if_le_length P (l : list (list string)) : count_if P l <= Z.of_nat (List.length l).
Proof.
  induction l as [|r l IH]; [reflexivity|].
  rewrite count_if_cons. simpl List.length. destruct (P r); lia.
Qed.

(** X7. In a world whose pool files have their header line, the numbers
    [on_stats] computes for a pool are ordered: the free count lies
    between 0 and the total, and the counts for the last day, week and
    month increase in this order and do not exceed the total. *)
Theorem stats_bounds w now info :
  headed w ->
  0 <= st_free (pool_stats w now info) <= st_total (pool_stats w now info) /\
  0 <= st_day (pool_stats w now info) /\
  st_day (pool_stats w now info) <= st_week (pool_stats w now info) /\
  st_week (pool_stats w now info) <= st_month (pool_stats w now info) /\
  st_month (pool_stats w now info) <= st_total (pool_stats w now info).
Proof.
  intros Hw. rewrite pool_stats_spec. cbn zeta.
  cbn [st_free st_total st_day st_week st_month].
  pose proof (headed_read w (csv info) Hw) as Hne.
  destruct (_read_csv w (csv info)) as [|header records]; [congruence|].
  simpl tail. simpl List.length.
  pose proof (count_if_nonneg unclaimed records).
  pose proof (count_if_le_length unclaimed records).
  pose proof (count_if_nonneg (claimed_within now 1) records).
  pose proof (count_if_le_length (claimed_within now 30) records).
  pose proof (count_if_le (claimed_within now 1) (claimed_within now 7) records
                (fun r => claimed_within_longer now 1 7 r ltac:(lia))).
  pose proof (count_if_le (claimed_within now 7) (claimed_within now 30) records
                (fun r => claimed_within_longer now 7 30 r ltac:(lia))).
  lia.
Qed.

Lemma stats_bounds_witness :
  st_day (pool_stats world_taken noon (mkBase "Max" "base_max.csv" 35))
  <= st_week (pool_stats world_taken noon (mkBase "Max" "base_max.csv" 35)).
Proof.
  destruct (stats_bounds world_taken noon (mkBase "Max" "base_max.csv" 35))
    as (_ & _ & H & _).
  - apply (headed_step world_full). apply (headed_import empty_world). apply headed_empty.
  - exact H.
Defined.

(** X8. When no unclaimed record of the pool carries a timestamp, a
    successful [allocate_for_user] that returns [n] values changes the
    statistics of the pool, taken at any instant, as follows: the total
    stays, the free count drops by [n], and the count of each window of 1,
    7 and 30 days grows by [n] if the timestamp written by the call reads
    as an instant inside the window, and stays otherwise. *)
Theorem allocate_stats w base_key user_id username now w' vals dt :
  consistent w ->
  allocate_for_user w base_key user_id username now = Some (w', (vals, None)) ->
  exists info,
    base_info base_key = Some info /\
    st_total (pool_stats w' dt info) = st_total (pool_stats w dt info) /\
    st_free (pool_stats w' dt info)
      = st_free (pool_stats w dt info) - Z.of_nat (List.length vals) /\
    st_day (pool_stats w' dt info)
      = st_day (pool_stats w dt info)
        + (if stamp_within dt 1 now then Z.of_nat (List.length vals) else 0) /\
    st_week (pool_stats w' dt info)
      = st_week (pool_stats w dt info)
        + (if stamp_within dt 7 now then Z.of_nat (List.length vals) else 0) /\
    st_month (pool_stats w' dt info)
      = st_month (pool_stats w dt info)
        + (if stamp_within dt 30 now then Z.of_nat (List.length vals) else 0).
Proof.
  intros Hc H.
  destruct (allocate_success_inv _ _ _ _ _ _ _ H)
    as (info & header & rest & rest' & Hinfo & _ & Hr & Hr' & Hs & _).
  exists info. split; [exact Hinfo|].
  rewrite !pool_stats_spec. cbn zeta. cbn [st_free st_total st_day st_week st_month].
  pose proof (consistent_read w (csv info) Hc) as Hcr.
  rewrite Hr, Hr' in *. simpl tail in *. simpl List.length.
  assert (H3 : forall row, row ∈ rest -> unclaimed row = true -> field 3 row = "").
  { intros row Hin Hu. apply (Hcr row Hin Hu). }
  rewrite (scanned_length _ _ _ _ _ _ Hs), (scanned_unclaimed _ _ _ _ _ _ Hs).
  rewrite !(scanned_window _ _ _ _ _ _ dt _ Hs H3).
  repeat split; reflexivity.
Qed.

(** ** Import and the queue *)








(** ** Invariants of the pool files *)

Section FileInvariants.






Lemma consistent_write w path rows :
  consistent w -> consistent_rows rows -> consistent (_write_csv w path rows).
Proof.
  intros H Hr p r. unfold _write_csv. simpl. rewrite lookup_insert.
  case_decide; [intros [= <-]; exact Hr | apply H].
Qed.

Lemma assign_scanned rows count user_id username now :
  exists header rest rest' values,
    (rows = [] /\ fst (_assign_records_csv rows count user_id username now) = []) \/
    (rows = header :: rest /\
     fst (_assign_records_csv rows count user_id username now) = header :: rest' /\
     Scanned user_id username now rest rest' values).
Proof.
  destruct rows as [|header rest].
  - exists [], [], [], []. left. split; reflexivity.
  - destruct (scan_scanned count user_id username now rest []) as (values & _ & Hs).
    exists header, rest, (fst (assign_loop count user_id username now rest [])), values.
    right. rewrite assign_records_csv_spec. repeat split. exact Hs.
Qed.


Lemma consistent_append rows (cs : list string) :
  consistent_rows rows -> consistent_rows (rows ++ (new_row <$> cs)).
Proof.
  intros H row Hin Hu.
  assert (Hcase : row ∈ tail rows \/ row ∈ new_row <$> cs).
  { destruct rows as [|header rest]; simpl in Hin.
    - right. apply list_elem_of_In. apply list_elem_of_In in Hin.
      destruct (new_row <$> cs) as [|r l]; [inversion Hin | right; exact Hin].
    - apply elem_of_app in Hin. exact Hin. }
  destruct Hcase as [Hold|Hnew]; [apply (H row Hold Hu)|].
  apply list_elem_of_fmap in Hnew as (c & -> & _). split; reflexivity.
Qed.


Lemma import_keeps_consistent w path vals :
  consistent w -> consistent (fst (_add_new_values w path vals)).
Proof.
  intros Hc. rewrite add_new_values_spec.
  destruct (imported w path vals) as [|c cs] eqn:E; cbn [fst]; [exact Hc|].
  apply consistent_write; [exact Hc|].
  apply consistent_append, consistent_read, Hc.
Qed.

Lemma step_keeps_consistent w o : consistent w -> consistent (run_op w o).
Proof.
  intros Hc. destruct o as [k u uname now | k vals | u | u k v]; simpl.
  - destruct (allocate_for_user w k u uname now) as [[w' res]|] eqn:E; [|exact Hc].
    apply allocate_world in E as [->|(info & _ & _ & ->)]; [exact Hc|].
    apply consistent_write; [exact Hc|].
    pose proof (consistent_read w (csv info) Hc) as Hr.
    destruct (assign_scanned (_read_csv w (csv info))
                (total_allowance w k info u - held w info u) u uname now)
      as (header & rest & rest' & values & [[E1 E2]|(E1 & E2 & Hs)]).
    + rewrite E2. intros row Hin. inversion Hin.
    + rewrite E2. rewrite E1 in Hr. unfold consistent_rows in *. simpl tail in *.
      apply (scanned_consistent _ _ _ _ _ _ Hs Hr).
  - destruct (base_info k) as [info|]; [|exact Hc].
    rewrite add_new_values_spec. destruct (imported w (csv info) vals) as [|c cs] eqn:E;
      cbn [fst]; [exact Hc|].
    apply consistent_write; [exact Hc|].
    apply consistent_append, consistent_read, Hc.
  - destruct (on_clear_command_fold w u) as (F & _).
    intros path rows. rewrite F. apply Hc.
  - exact Hc.
Qed.


Lemma consistent_empty : consistent empty_world.
Proof. intros path rows H. simpl in H. rewrite lookup_empty in H. discriminate H. Qed.

End FileInvariants.



(** X12. Starting from a world in which every unclaimed record has an
    empty label and an empty timestamp, this stays so through any sequence
    of allocations, imports, unlocks and settings of an extra limit: claim
    columns are only ever written together with a non-empty identity. *)
Theorem consistent_preserved w ops : consistent w -> consistent (run_ops w ops).
Proof.
  revert w. induction ops as [|o ops IH]; intros w Hc; [exact Hc|].
  simpl. apply IH, step_keeps_consistent, Hc.
Qed.

Lemma consistent_preserved_witness : consistent (run_ops empty_world ops_raise).
Proof. apply (consistent_preserved empty_world ops_raise), consistent_empty. Defined.

Lemma allocate_stats_witness :
  st_free (pool_stats world_taken noon (mkBase "Max" "base_max.csv" 35))
  = st_free (pool_stats world_full noon (mkBase "Max" "base_max.csv" 35)) - 35 /\
  st_week (pool_stats world_taken noon (mkBase "Max" "base_max.csv" 35))
  = st_week (pool_stats world_full noon (mkBase "Max" "base_max.csv" 35)) + 35.
Proof.
  destruct (allocate_stats world_full "max" 7 "bob" stamp world_taken taken35 noon)
    as (info & Hinfo & _ & Hfree & _ & Hweek & _).
  - apply (import_keeps_consistent empty_world), consistent_empty.
  - vm_compute. reflexivity.
  - injection Hinfo as <-. split; [exact Hfree | exact Hweek].
Defined.

(** ** Start-up and wipe *)

Section StartWipe.

Lemma world_eq w1 w2 :
  files w1 = files w2 -> limits w1 = limits w2 -> writes w1 = writes w2 -> w1 = w2.
Proof. destruct w1, w2. simpl. intros -> -> ->. reflexivity. Qed.

Lemma csvs_cons (e : string * BaseInfo) l path :
  path ∈ (fun e : string * BaseInfo => csv e.2) <$> (e :: l) <->
  path = csv e.2 \/ path ∈ (fun e : string * BaseInfo => csv e.2) <$> l.
Proof. rewrite fmap_cons. apply elem_of_cons. Qed.

Lemma ensure_fold (l : list (string * BaseInfo)) : forall w,
  let w' :=
    fold_left
      (fun w '(key, info) =>
         match files w !! csv info with
         | None => mkWorld (<[csv info := [HEADER]]> (files w)) (limits w) (writes w)
         | Some _ => w
         end) l w in
  limits w' = limits w /\ writes w' = writes w /\
  forall path,
    files w' !! path =
    match files w !! path with
    | Some rows => Some rows
    | None => if decide (path ∈ (fun e : string * BaseInfo => csv e.2) <$> l)
              then Some [HEADER] else None
    end.
Proof.
  induction l as [|[key info] l IH]; intros w; cbn zeta.
  - cbn [fold_left]. split; [reflexivity|]. split; [reflexivity|].
    intros path. destruct (files w !! path); [reflexivity|].
    case_decide as H; [|reflexivity]. rewrite fmap_nil in H. inversion H.
  - cbn [fold_left]. destruct (files w !! csv info) as [rows|] eqn:E.
    + destruct (IH w) as (L & W & F). split; [exact L|]. split; [exact W|].
      intros path. rewrite F. destruct (files w !! path) as [r|] eqn:P; [reflexivity|].
      repeat case_decide; try reflexivity.
      * exfalso. match goal with H : ~ _ |- _ => apply H end.
        apply csvs_cons. right. assumption.
      * exfalso. match goal with H : _ ∈ _ <$> (_ :: _) |- _ =>
          apply csvs_cons in H as [->|H]; [simpl in P; congruence | contradiction] end.
    + destruct (IH (mkWorld (<[csv info := [HEADER]]> (files w)) (limits w) (writes w)))
        as (L & W & F).
      split; [exact L|]. split; [exact W|].
      intros path. rewrite F. cbn [files]. rewrite lookup_insert.
      destruct (decide (csv info = path)) as [<-|Hne].
      * rewrite E. case_decide as H; [reflexivity|].
        exfalso. apply H, csvs_cons. left. reflexivity.
      * destruct (files w !! path) as [r|]; [reflexivity|].
        repeat case_decide; try reflexivity.
        -- exfalso. match goal with H : ~ _ |- _ => apply H end.
           apply csvs_cons. right. assumption.
        -- exfalso. match goal with H : _ ∈ _ <$> (_ :: _) |- _ =>
             apply csvs_cons in H as [->|H]; [simpl in Hne; congruence | contradiction] end.
Qed.

Lemma base_csv_elem key info :
  base_info key = Some info -> csv info ∈ (fun e : string * BaseInfo => csv e.2) <$> BASE_TYPES.
Proof.
  intros H. apply list_elem_of_fmap. exists (key, info). split; [reflexivity|].
  apply base_info_elem, H.
Qed.

Lemma clear_fold_files (l : list (string * BaseInfo)) : forall w count,
  let r :=
    fold_left
      (fun '(w, count) '(key, info) =>
         match files w !! csv info with
         | Some _ => (mkWorld (<[csv info := [HEADER]]> (files w)) (limits w) (writes w),
                      count + 1)
         | None => (w, count)
         end) l (w, count) in
  limits r.1 = limits w /\ writes r.1 = writes w /\
  r.2 = count + Z.of_nat (List.length
                            (filter (fun e : string * BaseInfo => is_Some (files w !! csv e.2)) l)) /\
  forall path,
    files r.1 !! path =
    match files w !! path with
    | Some rows => if decide (path ∈ (fun e : string * BaseInfo => csv e.2) <$> l)
                   then Some [HEADER] else Some rows
    | None => None
    end.
Proof.
  induction l as [|[key info] l IH]; intros w count; cbn zeta.
  - cbn [fold_left fst snd]. split; [reflexivity|]. split; [reflexivity|].
    split; [rewrite filter_nil; simpl; lia|].
    intros path. destruct (files w !! path); [|reflexivity].
    case_decide as H; [|reflexivity]. rewrite fmap_nil in H. inversion H.
  - cbn [fold_left]. destruct (files w !! csv info) as [rows|] eqn:E.
    + destruct (IH (mkWorld (<[csv info := [HEADER]]> (files w)) (limits w) (writes w))
                   (count + 1)) as (L & W & C & F).
      split; [exact L|]. split; [exact W|]. split.
      * rewrite C. rewrite filter_cons, decide_True by (cbn [snd]; rewrite E; eexists; reflexivity).
        cbn [List.length]. cbn [files].
        replace (filter (fun e : string * BaseInfo =>
                   is_Some (<[csv info := [HEADER]]> (files w) !! csv e.2)) l)
          with (filter (fun e : string * BaseInfo => is_Some (files w !! csv e.2)) l); [lia|].
        apply list_filter_iff. intros [k i]. cbn [snd]. rewrite lookup_insert.
        case_decide as Hd; [|reflexivity]. rewrite <- Hd, E.
        split; intros _; eexists; reflexivity.
      * intros path. rewrite F. cbn [files]. rewrite lookup_insert.
        destruct (decide (csv info = path)) as [<-|Hne].
        -- rewrite E. rewrite (decide_True (P := csv info ∈ _ <$> (_ :: l)))
             by (apply csvs_cons; left; reflexivity).
           case_decide; reflexivity.
        -- destruct (files w !! path) as [r|]; [|reflexivity].
           repeat case_decide; try reflexivity.
           ++ exfalso. match goal with H : ~ _ |- _ => apply H end.
              apply csvs_cons. right. assumption.
           ++ exfalso. match goal with H : _ ∈ _ <$> (_ :: _) |- _ =>
                apply csvs_cons in H as [->|H]; [simpl in Hne; congruence | contradiction] end.
    + destruct (IH w count) as (L & W & C & F).
      split; [exact L|]. split; [exact W|]. split.
      * rewrite C. rewrite filter_cons, decide_False; [reflexivity|].
        cbn [snd]. rewrite E. intros [x Hx]. discriminate Hx.
      * intros path. rewrite F. destruct (files w !! path) as [r|] eqn:P; [|reflexivity].
        repeat case_decide; try reflexivity.
        -- exfalso. match goal with H : ~ _ |- _ => apply H end.
           apply csvs_cons. right. assumption.
        -- exfalso. match goal with H : _ ∈ _ <$> (_ :: _) |- _ =>
             apply csvs_cons in H as [->|H]; [simpl in P; congruence | contradiction] end.
Qed.

Lemma ensure_csv_exists_fold w :
  limits (ensure_csv_exists w) = limits w /\ writes (ensure_csv_exists w) = writes w /\
  forall path,
    files (ensure_csv_exists w) !! path =
    match files w !! path with
    | Some rows => Some rows
    | None => if decide (path ∈ (fun e : string * BaseInfo => csv e.2) <$> BASE_TYPES)
              then Some [HEADER] else None
    end.
Proof. exact (ensure_fold BASE_TYPES w). Qed.

Lemma clear_all_databases_fold w :
  limits (clear_all_databases w).1 = limits w /\
  writes (clear_all_databases w).1 = writes w /\
  (clear_all_databases w).2 =
    0 + Z.of_nat (List.length
           (filter (fun e : string * BaseInfo => is_Some (files w !! csv e.2)) BASE_TYPES)) /\
  forall path,
    files (clear_all_databases w).1 !! path =
    match files w !! path with
    | Some rows => if decide (path ∈ (fun e : string * BaseInfo => csv e.2) <$> BASE_TYPES)
                   then Some [HEADER] else Some rows
    | None => None
    end.
Proof. exact (clear_fold_files BASE_TYPES w 0). Qed.

End StartWipe.

(** X13. [ensure_csv_exists] gives every pool of [BASE_TYPES] a file,
    keeps every file that exists as it is, and changes nothing that
    [_read_csv] can see: the rows read at any path, the ledger and the
    list of writes are the same before and after; running it a second
    time changes nothing at all, and header lines that were there stay. *)
Theorem ensure_csv_exists_spec w :
  (forall key info, base_info key = Some info ->
     is_Some (files (ensure_csv_exists w) !! csv info)) /\
  (forall path rows, files w !! path = Some rows ->
     files (ensure_csv_exists w) !! path = Some rows) /\
  (forall path, _read_csv (ensure_csv_exists w) path = _read_csv w path) /\
  limits (ensure_csv_exists w) = limits w /\
  writes (ensure_csv_exists w) = writes w /\
  ensure_csv_exists (ensure_csv_exists w) = ensure_csv_exists w /\
  (headed w -> headed (ensure_csv_exists w)).
Proof.
  destruct (ensure_csv_exists_fold w) as (L & W & F).
  split; [|split; [|split; [|split; [|split; [|split]]]]].
  - intros key info Hk. rewrite F. destruct (files w !! csv info); [eexists; reflexivity|].
    rewrite decide_True by (apply (base_csv_elem key), Hk). eexists; reflexivity.
  - intros path rows H. rewrite F, H. reflexivity.
  - intros path. unfold _read_csv. rewrite F.
    destruct (files w !! path); [reflexivity|]. destruct (decide _); reflexivity.
  - exact L.
  - exact W.
  - destruct (ensure_csv_exists_fold (ensure_csv_exists w)) as (L2 & W2 & F2).
    apply world_eq; [|exact L2 | exact W2].
    apply map_eq. intros path. rewrite F2, F.
    destruct (files w !! path); [reflexivity|]. destruct (decide _); reflexivity.
  - intros H path rows. rewrite F. destruct (files w !! path) as [r|] eqn:E.
    + intros [= <-]. apply (H _ _ E).
    + destruct (decide _); [intros [= <-]; discriminate | discriminate].
Qed.

Lemma step_keeps_files w o path : is_Some (files w !! path) -> is_Some (files (run_op w o) !! path).
Proof.
  intros H. destruct o as [k u uname now | k vals | u | u k v]; simpl.
  - destruct (allocate_for_user w k u uname now) as [[w' res]|] eqn:E; [|exact H].
    apply allocate_world in E as [->|(info & _ & _ & ->)]; [exact H|].
    simpl. rewrite lookup_insert. case_decide; [eexists; reflexivity | exact H].
  - destruct (base_info k) as [info|]; [|exact H].
    rewrite add_new_values_spec. destruct (imported _ _ _); cbn [fst]; [exact H|].
    simpl. rewrite lookup_insert. case_decide; [eexists; reflexivity | exact H].
  - destruct (on_clear_command_fold w u) as (F & _). rewrite F. exact H.
  - exact H.
Qed.

(** X14. From start-up on, no pool file is ever lost or left without its
    header line: after [ensure_csv_exists] in a world without files, and
    then any sequence of allocations, imports, unlocks and settings of an
    extra limit, every pool of [BASE_TYPES] has its file and every file
    starts with a line. *)
Theorem header_never_lost ops :
  headed (run_ops (ensure_csv_exists empty_world) ops) /\
  (forall key info, base_info key = Some info ->
     is_Some (files (run_ops (ensure_csv_exists empty_world) ops) !! csv info)).
Proof.
  destruct (ensure_csv_exists_spec empty_world) as (Hex & _ & _ & _ & _ & _ & Hh).
  split.
  - apply headed_run, Hh, headed_empty.
  - intros key info Hk. specialize (Hex key info Hk). revert Hex.
    generalize (ensure_csv_exists empty_world).
    induction ops as [|o ops IH]; intros w H; [exact H|].
    simpl. apply IH, step_keeps_files, H.
Qed.

(** X15. [clear_all_databases] leaves in every pool no record at all:
    each pool reads as the header line alone, so that nobody holds
    anything; it returns the number of pools whose file existed, creates
    no file, and touches neither the files outside [BASE_TYPES] nor the
    ledger, so that extra limits granted before the wipe remain and the
    quota invariant is kept. *)
Theorem clear_all_databases_spec w :
  (forall key info, base_info key = Some info ->
     _read_csv (clear_all_databases w).1 (csv info) = [HEADER] /\
     forall v, held (clear_all_databases w).1 info v = 0) /\
  (clear_all_databases w).2 =
    Z.of_nat (List.length
                (filter (fun e : string * BaseInfo => is_Some (files w !! csv e.2)) BASE_TYPES)) /\
  (forall path, files w !! path = None -> files (clear_all_databases w).1 !! path = None) /\
  (forall path, path ∉ (fun e : string * BaseInfo => csv e.2) <$> BASE_TYPES ->
     files (clear_all_databases w).1 !! path = files w !! path) /\
  limits (clear_all_databases w).1 = limits w /\
  (quota_ok w -> quota_ok (clear_all_databases w).1).
Proof.
  destruct (clear_all_databases_fold w) as (L & _ & C & F).
  assert (Hread : forall key info, base_info key = Some info ->
            _read_csv (clear_all_databases w).1 (csv info) = [HEADER]).
  { intros key info Hk. unfold _read_csv. rewrite F.
    destruct (files w !! csv info); [|reflexivity].
    rewrite decide_True by (apply (base_csv_elem key), Hk). reflexivity. }
  assert (Hheld : forall key info v, base_info key = Some info ->
            held (clear_all_databases w).1 info v = 0).
  { intros key info v Hk. unfold held. rewrite (Hread key info Hk). reflexivity. }
  split; [|split; [|split; [|split; [|split]]]].
  - intros key info Hk. split; [apply (Hread key info Hk)|].
    intros v. apply (Hheld key info v Hk).
  - rewrite C. lia.
  - intros path H. rewrite F, H. reflexivity.
  - intros path H. rewrite F. destruct (files w !! path); [|reflexivity].
    rewrite decide_False by exact H. reflexivity.
  - exact L.
  - intros Hq key info v Hk. rewrite (Hheld key info v Hk).
    unfold total_allowance, get_user_extra_limit. rewrite L.
    specialize (Hq key info v Hk). unfold total_allowance, get_user_extra_limit in Hq.
    pose proof (count_if_nonneg (counts_for v) (tail (_read_csv w (csv info)))) as Hn.
    unfold held in Hq. rewrite count_user_records_spec in Hq. lia.
Qed.

(** ** Unlock, composed *)

(** X16. Once [on_clear_command] has unlocked a pool for an identity that
    had used up its allowance there, exactly the base limit of the pool
    remains for it, and its next [allocate_for_user] on that pool is not
    refused with [already_got]: it ends in [not_enough] or in success with
    at most that many values. *)
Theorem unlock_then_allocate w user_id key info username now :
  base_info key = Some info ->
  0 < held w info user_id ->
  total_allowance w key info user_id <= held w info user_id ->
  total_allowance (on_clear_command w user_id).1 key info user_id
    - held (on_clear_command w user_id).1 info user_id = limit info /\
  exists w2 vals r,
    allocate_for_user (on_clear_command w user_id).1 key user_id username now
      = Some (w2, (vals, r)) /\
    r <> Some already_got /\
    Z.of_nat (List.length vals) <= limit info.
Proof.
  intros Hinfo Hheld Hq.
  destruct (on_clear_command_fold w user_id) as (F & _ & _ & _ & _ & L2).
  set (w1 := (on_clear_command w user_id).1) in *.
  assert (Hused : key ∈ get_user_used_types w user_id)
    by (apply used_types_elem; exists info; split; assumption).
  assert (Hex : exhausted w user_id key = true)
    by (apply (exhausted_iff w user_id key info Hinfo); exact Hq).
  assert (Hh1 : held w1 info user_id = held w info user_id) by (apply held_ext, F).
  assert (Ht1 : total_allowance w1 key info user_id = limit info + held w info user_id).
  { unfold total_allowance, get_user_extra_limit.
    rewrite (L2 key info Hused Hex Hinfo). reflexivity. }
  split; [lia|].
  pose proof (base_limit_pos key info Hinfo) as Hpos.
  assert (Hlt : held w1 info user_id < total_allowance w1 key info user_id) by lia.
  destruct (Z_lt_ge_dec (count_if is_free (_read_csv w1 (csv info)))
              (total_allowance w1 key info user_id - held w1 info user_id)) as [Hf|Hf].
  - exists w1, [], (Some not_enough).
    rewrite (allocate_not_enough _ _ _ username now _ Hinfo Hlt Hf).
    split; [reflexivity|]. split; [discriminate | simpl; lia].
  - apply Z.ge_le in Hf.
    rewrite (allocate_scan _ _ _ username now _ Hinfo Hlt Hf).
    pose proof (assign_taken_le (_read_csv w1 (csv info))
                  (total_allowance w1 key info user_id - held w1 info user_id)
                  user_id username now ltac:(lia)) as Hle.
    destruct (snd (_assign_records_csv _ _ _ _ _)) as [|v vs] eqn:E.
    + exists w1, [], None. split; [reflexivity|]. split; [discriminate | simpl; lia].
    + eexists _, (v :: vs), None. split; [reflexivity|]. split; [discriminate | lia].
Qed.

Lemma unlock_then_allocate_witness :
  total_allowance (on_clear_command world_taken 7).1 "max" (mkBase "Max" "base_max.csv" 35) 7
  - held (on_clear_command world_taken 7).1 (mkBase "Max" "base_max.csv" 35) 7 = 35.
Proof.
  destruct (unlock_then_allocate world_taken 7 "max" (mkBase "Max" "base_max.csv" 35)
              "bob" stamp) as [H _].
  - reflexivity.
  - vm_compute. reflexivity.
  - vm_compute. discriminate.
  - exact H.
Defined.

(** X17. [on_clear_command] run a second time right after the first, for
    the same identity, unlocks nothing and leaves the world exactly as the
    first run left it: one unlock grants one more batch, not one per
    command. *)
Theorem unlock_twice w user_id :
  (on_clear_command (on_clear_command w user_id).1 user_id).1
    = (on_clear_command w user_id).1 /\
  unlocked_keys (on_clear_command (on_clear_command w user_id).1 user_id).2 = [].
Proof.
  destruct (on_clear_command_fold w user_id) as (F & _ & _ & _ & L1 & L2).
  set (w1 := (on_clear_command w user_id).1) in *.
  destruct (on_clear_command_fold w1 user_id) as (F' & W' & U' & _ & L1' & _).
  assert (Hsame : get_user_used_types w1 user_id = get_user_used_types w user_id).
  { rewrite !used_types_spec. f_equal. apply list_filter_iff. intros [k i]. simpl.
    rewrite (held_ext user_id w1 w i F). reflexivity. }
  assert (Hnot : forall k, k ∈ get_user_used_types w1 user_id ->
                           exhausted w1 user_id k = false).
  { intros k Hk. rewrite Hsame in Hk.
    pose proof Hk as Hk'. apply used_types_elem in Hk' as (info & Hinfo & Hpos).
    apply not_true_is_false. intros X.
    apply (exhausted_iff w1 user_id k info Hinfo) in X.
    rewrite (held_ext user_id w1 w info F) in X.
    unfold total_allowance, get_user_extra_limit in X.
    pose proof (base_limit_pos k info Hinfo) as Hl.
    destruct (exhausted w user_id k) eqn:E.
    - rewrite (L2 k info Hk E Hinfo) in X. simpl in X. lia.
    - rewrite (L1 user_id k) in X by (right; right; exact E).
      assert (E' : exhausted w user_id k = true); [|congruence].
      apply (exhausted_iff w user_id k info Hinfo).
      unfold total_allowance, get_user_extra_limit. exact X. }
  split.
  - apply world_eq; [exact F' | | exact W'].
    apply map_eq. intros [u k]. apply L1'.
    destruct (decide (k ∈ get_user_used_types w1 user_id)) as [Hk|Hk].
    + right. right. apply Hnot, Hk.
    + right. left. exact Hk.
  - rewrite U'. revert Hnot. generalize (get_user_used_types w1 user_id).
    intros l. induction l as [|k l IH]; intros Hnot; [reflexivity|].
    rewrite filter_cons, decide_False.
    + apply IH. intros k' Hk'. apply Hnot. right. exact Hk'.
    + rewrite (Hnot k) by left. discriminate.
Qed.
